(** * Serverless FinOps dashboard: the computational core of [app.py]

    The script is one linear pass: load (with an automatic repair of a
    single-column parse), numeric coercion, then six views over the coerced
    table.  This development embeds that pass and proves the properties
    the specification states about it.

    Modelling conventions.

    - A numeric cell is an IEEE-754 binary64 value, Rocq's primitive [float],
      which is what a pandas [float64] column holds; a missing value is NaN.
      Arithmetic and comparisons are the hardware operations, so the
      constants [0.30], [0.00000000012], [0.09] denote the same doubles as
      in Python.  The rows of the coerced table are taken at dtype float64.
      Where the dtype of a column changes what is computed, in the triple
      product of the forecast, the int64 case is written out
      ([forecast_value]).
    - [pd.read_csv] is a library call.  An uploaded file is represented by
      what the two calls made by the script return for it.
    - The parser behind [pd.to_numeric] is a parameter [str_to_float].
    - [Series.sum] adds in an order that depends on the length of the
      column, and [sort_values] places equal keys in an order of its own.
      [np_sum] (left to right) and [sort_values_desc] (stable) are one
      instance of each; the properties of view 1 are proved for every
      order of additions ([sum_in_some_order]) and every descending order
      of the rows ([sorted_by_cost]).
    - A row of the coerced table is a record of the ten canonical columns
      plus the forecast column; columns outside the schema are not carried,
      and an absent [Environment], which nothing reads, shows as [None]. *)

From Stdlib Require Import ZArith Lia String Ascii Bool List Floats Uint63.
From Stdlib Require Import Permutation.
Import ListNotations.

Set Warnings "-inexact-float".

Local Open Scope float_scope.

(* ================================================================== *)
(** * Data model *)
(* ================================================================== *)

(** A cell of a freshly parsed table: text, a number (NaN when missing) or
    Python's [None] (the padding [str.split(expand=True)] inserts). *)
Inductive cell : Type :=
| CStr (s : string)
| CNum (x : float)
| CNone.

(** A table as the parser returns it: column labels and rows of cells. *)
Record DataFrame : Type := mkDataFrame {
  columns : list string;
  data : list (list cell)
}.

(** The exceptions the script can meet. *)
Inductive exn : Type :=
| ParserError (msg : string)           (* raised inside [pd.read_csv] *)
| AttributeError                       (* [.str] on a non-string column *)
| LengthMismatch (have want : nat)     (* [df.columns = ...] of the wrong length *)
| KeyError (col : string).             (* [df[col]] for an absent column *)

(** An uploaded file, seen through the two parses the script requests:
    [pd.read_csv(uploaded)] and column [0] of
    [pd.read_csv(uploaded, header=None)]. *)
Record UploadedFile : Type := mkUpload {
  read_csv : exn + DataFrame;
  read_csv_noheader_0 : exn + list cell
}.

Definition canonical_columns : list string :=
  [ "FunctionName"; "Environment"; "InvocationsPerMonth"; "AvgDurationMs";
    "MemoryMB"; "ColdStartRate"; "ProvisionedConcurrency"; "GBSeconds";
    "DataTransferGB"; "CostUSD" ]%string.

Definition numeric_columns : list string :=
  [ "InvocationsPerMonth"; "AvgDurationMs"; "MemoryMB"; "ColdStartRate";
    "ProvisionedConcurrency"; "GBSeconds"; "DataTransferGB"; "CostUSD" ]%string.

(** One row of the coerced table.  [ForecastedCost] is the column view 5
    assigns on the table itself; it is absent ([None]) until then. *)
Record FunctionRecord : Type := mkRecord {
  FunctionName : cell;
  Environment : cell;
  InvocationsPerMonth : float;
  AvgDurationMs : float;
  MemoryMB : float;
  ColdStartRate : float;
  ProvisionedConcurrency : float;
  GBSeconds : float;
  DataTransferGB : float;
  CostUSD : float;
  ForecastedCost : option float
}.

(** The ten canonical columns of a row. *)
Definition canonical (r : FunctionRecord) : FunctionRecord :=
  mkRecord (FunctionName r) (Environment r) (InvocationsPerMonth r)
           (AvgDurationMs r) (MemoryMB r) (ColdStartRate r)
           (ProvisionedConcurrency r) (GBSeconds r) (DataTransferGB r)
           (CostUSD r) None.

(* ================================================================== *)
(** * Loader and repair (lines 19-48) *)
(* ================================================================== *)

(** Python's [s.split(",")]. *)
Fixpoint split_comma (s : string) : list string :=
  match s with
  | EmptyString => [EmptyString]
  | String c rest =>
      if Ascii.eqb c ","%char then EmptyString :: split_comma rest
      else match split_comma rest with
           | [] => [String c EmptyString]
           | h :: t => String c h :: t
           end
  end.

Fixpoint has_comma (s : string) : bool :=
  match s with
  | EmptyString => false
  | String c rest => Ascii.eqb c ","%char || has_comma rest
  end.

Definition is_str (c : cell) : bool :=
  match c with CStr _ => true | _ => false end.

(** The list each element of the Series turns into: the fields of a string,
    a single NaN for anything else. *)
Definition split_cell (c : cell) : list cell :=
  match c with
  | CStr s => map CStr (split_comma s)
  | _ => [CNum nan]
  end.

Definition max_len (rows : list (list cell)) : nat :=
  fold_right (fun r n => Nat.max (length r) n) 0%nat rows.

(** A NaN element is repeated over the whole width; a shorter list of fields
    is padded with [None]. *)
Definition expand_row (w : nat) (c : cell) : list cell :=
  match c with
  | CStr s => let fs := map CStr (split_comma s) in
              fs ++ repeat CNone (w - length fs)
  | _ => repeat (CNum nan) w
  end.

(** A table without column names: its width and its rows. *)
Definition frame0 : Type := (nat * list (list cell))%type.

(** [temp[0].str.split(",", expand=True)]: the [.str] accessor refuses a
    column that holds no string; the result is as wide as the longest
    list of fields. *)
Definition str_split_expand (temp0 : list cell) : exn + frame0 :=
  if existsb is_str temp0 then
    let w := max_len (map split_cell temp0) in
    inr (w, map (expand_row w) temp0)
  else inl AttributeError.

(** [df.columns = names]: refused unless there is one name per column. *)
Definition set_columns (fr : frame0) (names : list string) : exn + DataFrame :=
  let (w, rows) := fr in
  if Nat.eqb w (length names) then inr (mkDataFrame names rows)
  else inl (LengthMismatch w (length names)).

(** The body of the [try] block. *)
Definition load (f : UploadedFile) : exn + DataFrame :=
  match read_csv f with
  | inl e => inl e
  | inr df =>
      if Nat.eqb (length (columns df)) 1 then
        match read_csv_noheader_0 f with
        | inl e => inl e
        | inr temp0 =>
            match str_split_expand temp0 with
            | inl e => inl e
            | inr fr => set_columns fr canonical_columns
            end
        end
      else inr df
  end.

(** Whether the repair branch is entered. *)
Definition repair_taken (f : UploadedFile) : bool :=
  match read_csv f with
  | inl _ => false
  | inr df => Nat.eqb (length (columns df)) 1
  end.

(* ================================================================== *)
(** * Numeric coercion (lines 51-53) *)
(* ================================================================== *)

Fixpoint index_of (name : string) (cols : list string) : option nat :=
  match cols with
  | [] => None
  | c :: t => if String.eqb c name then Some 0%nat
              else option_map S (index_of name t)
  end.

Fixpoint map_nth {A : Type} (f : A -> A) (i : nat) (l : list A) : list A :=
  match l, i with
  | [], _ => []
  | x :: t, O => f x :: t
  | x :: t, S j => x :: map_nth f j t
  end.

Section Coercion.

(** The text-to-number parser of [pd.to_numeric]; [None] when the text is
    not a number. *)
Variable str_to_float : string -> option float.

(** [pd.to_numeric(_, errors="coerce")] on one cell. *)
Definition to_numeric (c : cell) : cell :=
  match c with
  | CNum x => CNum x
  | CStr s => match str_to_float s with
              | Some x => CNum x
              | None => CNum nan
              end
  | CNone => CNum nan
  end.

(** [df[col] = pd.to_numeric(df[col], errors="coerce")]. *)
Definition coerce_column (name : string) (df : DataFrame) : exn + DataFrame :=
  match index_of name (columns df) with
  | None => inl (KeyError name)
  | Some i => inr (mkDataFrame (columns df)
                               (map (map_nth to_numeric i) (data df)))
  end.

(** The [for col in [...]] loop. *)
Fixpoint coerce_columns (names : list string) (df : DataFrame)
  : exn + DataFrame :=
  match names with
  | [] => inr df
  | n :: rest =>
      match coerce_column n df with
      | inl e => inl e
      | inr df' => coerce_columns rest df'
      end
  end.

Definition coerce (df : DataFrame) : exn + DataFrame :=
  coerce_columns numeric_columns df.

(** A table on which coercing [name] changes nothing. *)
Definition coerced_at (name : string) (df : DataFrame) : Prop :=
  coerce_column name df = inr df.

End Coercion.

(** Reading a coerced table row by row. *)
Definition num_of (c : cell) : float :=
  match c with CNum x => x | _ => nan end.

Definition get (cols : list string) (row : list cell) (name : string) : cell :=
  match index_of name cols with
  | Some i => nth i row CNone
  | None => CNone
  end.

Definition record_of (cols : list string) (row : list cell) : FunctionRecord :=
  let g := get cols row in
  mkRecord (g "FunctionName"%string) (g "Environment"%string)
           (num_of (g "InvocationsPerMonth"%string))
           (num_of (g "AvgDurationMs"%string))
           (num_of (g "MemoryMB"%string))
           (num_of (g "ColdStartRate"%string))
           (num_of (g "ProvisionedConcurrency"%string))
           (num_of (g "GBSeconds"%string))
           (num_of (g "DataTransferGB"%string))
           (num_of (g "CostUSD"%string))
           None.

Definition records (df : DataFrame) : list FunctionRecord :=
  map (record_of (columns df)) (data df).

(* ================================================================== *)
(** * Column reductions *)
(* ================================================================== *)

Definition is_missing (x : float) : bool := is_nan x.

Definition nan_to_zero (x : float) : float := if is_nan x then 0 else x.

(** [ndarray.sum()], adding from left to right.  numpy adds eight or more
    numbers in blocks; see [sum_in_some_order] for a sum in any order. *)
Definition np_sum (xs : list float) : float :=
  match xs with
  | [] => 0
  | x :: rest => fold_left PrimFloat.add rest x
  end.

(** [Series.sum()]: missing values count as zero. *)
Definition sum (xs : list float) : float := np_sum (map nan_to_zero xs).

Definition of_nat (n : nat) : float := of_uint63 (Uint63.of_Z (Z.of_nat n)).

Definition count (xs : list float) : nat :=
  length (filter (fun x => negb (is_nan x)) xs).

(** [Series.mean()]: the sum over the count of the present values. *)
Definition mean (xs : list float) : float := sum xs / of_nat (count xs).

(** [np.cumsum]. *)
Fixpoint np_cumsum_from (acc : float) (xs : list float) : list float :=
  match xs with
  | [] => []
  | x :: rest => let acc' := acc + x in acc' :: np_cumsum_from acc' rest
  end.

Definition np_cumsum (xs : list float) : list float :=
  match xs with
  | [] => []
  | x :: rest => x :: np_cumsum_from x rest
  end.

Fixpoint restore_mask (xs cs : list float) : list float :=
  match xs, cs with
  | x :: xs', c :: cs' => (if is_nan x then nan else c) :: restore_mask xs' cs'
  | _, _ => []
  end.

(** [Series.cumsum()]: a missing entry adds zero to the running sum and
    stays missing in the result. *)
Definition cumsum (xs : list float) : list float :=
  restore_mask xs (np_cumsum (map nan_to_zero xs)).

(** Order predicates on a column. *)
Fixpoint nondecreasing (xs : list float) : bool :=
  match xs with
  | x :: (y :: _) as rest => (x <=? y) && nondecreasing rest
  | _ => true
  end.

Fixpoint descending (xs : list float) : bool :=
  match xs with
  | x :: (y :: _) as rest => (y <=? x) && descending rest
  | _ => true
  end.

(* ================================================================== *)
(** * [sort_values(key, ascending=False)] *)
(* ================================================================== *)

Section Sorting.

Context {A : Type}.
Variable key : A -> float.

Fixpoint insert_desc (x : A) (l : list A) : list A :=
  match l with
  | [] => [x]
  | y :: rest => if key y <=? key x then x :: l
                 else y :: insert_desc x rest
  end.

Definition isort_desc (l : list A) : list A := fold_right insert_desc [] l.

(** Rows whose key is missing go last, in their original order.  Equal
    keys are left in table order here; the default sort kind may place them
    otherwise, see [sorted_by_cost]. *)
Definition sort_values_desc (l : list A) : list A :=
  isort_desc (filter (fun r => negb (is_nan (key r))) l)
    ++ filter (fun r => is_nan (key r)) l.

End Sorting.

(* ================================================================== *)
(** * View 1: cost concentration (lines 63-68) *)
(* ================================================================== *)

Record Ranked : Type := mkRanked {
  ranked_row : FunctionRecord;
  CostPercent : float;
  CumulativeCost : float
}.

Definition total_cost (df : list FunctionRecord) : float :=
  sum (map CostUSD df).

Fixpoint zip_ranked (rs : list FunctionRecord) (ps cs : list float)
  : list Ranked :=
  match rs, ps, cs with
  | r :: rs', p :: ps', c :: cs' => mkRanked r p c :: zip_ranked rs' ps' cs'
  | _, _, _ => []
  end.

Definition cost_percent (df : list FunctionRecord) (s : list FunctionRecord)
  : list float :=
  map (fun r => CostUSD r / total_cost df * 100) s.

Definition df_sorted (df : list FunctionRecord) : list Ranked :=
  let s := sort_values_desc CostUSD df in
  let pct := cost_percent df s in
  zip_ranked s pct (cumsum pct).

Definition top_80 (df : list FunctionRecord) : list Ranked :=
  filter (fun a => CumulativeCost a <=? 80) (df_sorted df).

(* ================================================================== *)
(** * View 2: memory right-sizing (lines 85-88) *)
(* ================================================================== *)

Record Sized : Type := mkSized {
  sized_row : FunctionRecord;
  EstimatedSavings : float
}.

Definition right_sizing_filter (r : FunctionRecord) : bool :=
  (AvgDurationMs r <? 600) && (1024 <? MemoryMB r).

Definition right_sizing (df : list FunctionRecord) : list Sized :=
  map (fun r => mkSized r (CostUSD r * 0.30)) (filter right_sizing_filter df).

(* ================================================================== *)
(** * View 3: provisioned concurrency (lines 97-104) *)
(* ================================================================== *)

Inductive recommendation : Type :=
| ReduceRemovePC
| KeepPC.

Definition recommendation_label (x : recommendation) : string :=
  match x with
  | ReduceRemovePC => "❌ Reduce / Remove PC"
  | KeepPC => "✔️ Keep PC"
  end.

Record Advised : Type := mkAdvised {
  advised_row : FunctionRecord;
  Recommendation : recommendation
}.

Definition pc_filter (r : FunctionRecord) : bool :=
  0 <? ProvisionedConcurrency r.

Definition recommend (r : FunctionRecord) : recommendation :=
  if ColdStartRate r <? 10 then ReduceRemovePC else KeepPC.

Definition pc (df : list FunctionRecord) : list Advised :=
  map (fun r => mkAdvised r (recommend r)) (filter pc_filter df).

(* ================================================================== *)
(** * View 4: low-value workloads (lines 114-118) *)
(* ================================================================== *)

Definition inv_threshold (df : list FunctionRecord) : float :=
  sum (map InvocationsPerMonth df) * 0.01.

Definition low_value_filter (df : list FunctionRecord) (r : FunctionRecord)
  : bool :=
  (InvocationsPerMonth r <? inv_threshold df)
  && (mean (map CostUSD df) <? CostUSD r).

Definition low_value (df : list FunctionRecord) : list FunctionRecord :=
  filter (low_value_filter df) df.

(* ================================================================== *)
(** * View 5: cost forecasting (lines 128-134) *)
(* ================================================================== *)

(** The expression on a row of float64 columns; [forecast_value] has it
    for every dtype. *)
Definition forecasted_cost (r : FunctionRecord) : float :=
  InvocationsPerMonth r * AvgDurationMs r * MemoryMB r * 0.00000000012
  + DataTransferGB r * 0.09.

Definition set_ForecastedCost (r : FunctionRecord) (x : float)
  : FunctionRecord :=
  mkRecord (FunctionName r) (Environment r) (InvocationsPerMonth r)
           (AvgDurationMs r) (MemoryMB r) (ColdStartRate r)
           (ProvisionedConcurrency r) (GBSeconds r) (DataTransferGB r)
           (CostUSD r) (Some x).

(** [df["ForecastedCost"] = ...]: the assignment is on [df] itself. *)
Definition forecast (df : list FunctionRecord) : list FunctionRecord :=
  map (fun r => set_ForecastedCost r (forecasted_cost r)) df.

(* ================================================================== *)
(** * View 6: containerization candidates (line 151) *)
(* ================================================================== *)

Definition containers_filter (r : FunctionRecord) : bool :=
  (3000 <? AvgDurationMs r) && (2048 <? MemoryMB r).

Definition containers (df : list FunctionRecord) : list FunctionRecord :=
  filter containers_filter df.

(* ================================================================== *)
(** * The script *)
(* ================================================================== *)

Inductive view_id : Type :=
| CostConcentration
| RightSizing
| ProvisionedConcurrencyAdvice
| LowValue
| Forecasting
| Containerization.

Inductive view_output : Type :=
| OutTop80 (v : list Ranked)
| OutRightSizing (v : list Sized)
| OutPC (v : list Advised)
| OutLowValue (v : list FunctionRecord)
| OutForecast (v : list FunctionRecord)
| OutContainers (v : list FunctionRecord).

(** One view run against the table [df] it finds; it returns what it shows
    and the table it leaves behind.  Views 1, 2, 3, 4 and 6 build new
    tables and leave [df] alone; view 5 assigns a column on [df]. *)
Definition step (v : view_id) (df : list FunctionRecord)
  : view_output * list FunctionRecord :=
  match v with
  | CostConcentration => (OutTop80 (top_80 df), df)
  | RightSizing => (OutRightSizing (right_sizing df), df)
  | ProvisionedConcurrencyAdvice => (OutPC (pc df), df)
  | LowValue => (OutLowValue (low_value df), df)
  | Forecasting => let df' := forecast df in (OutForecast df', df')
  | Containerization => (OutContainers (containers df), df)
  end.

Fixpoint run (order : list view_id) (df : list FunctionRecord)
  : list (view_id * view_output) * list FunctionRecord :=
  match order with
  | [] => ([], df)
  | v :: rest =>
      let (o, df') := step v df in
      let (os, df'') := run rest df' in
      ((v, o) :: os, df'')
  end.

Definition script_order : list view_id :=
  [ CostConcentration; RightSizing; ProvisionedConcurrencyAdvice; LowValue;
    Forecasting; Containerization ].

(** The rows a view shows, as rows of the table. *)
Definition selected (o : view_output) : list FunctionRecord :=
  match o with
  | OutTop80 v => map ranked_row v
  | OutRightSizing v => map sized_row v
  | OutPC v => map advised_row v
  | OutLowValue v => v
  | OutForecast v => v
  | OutContainers v => v
  end.

(** A view's output with the rows cut down to the canonical columns; the
    columns the view itself derives are kept. *)
Definition canonical_ranked (a : Ranked) : Ranked :=
  mkRanked (canonical (ranked_row a)) (CostPercent a) (CumulativeCost a).

Definition canonical_sized (a : Sized) : Sized :=
  mkSized (canonical (sized_row a)) (EstimatedSavings a).

Definition canonical_advised (a : Advised) : Advised :=
  mkAdvised (canonical (advised_row a)) (Recommendation a).

Definition own_columns (o : view_output) : view_output :=
  match o with
  | OutTop80 v => OutTop80 (map canonical_ranked v)
  | OutRightSizing v => OutRightSizing (map canonical_sized v)
  | OutPC v => OutPC (map canonical_advised v)
  | OutLowValue v => OutLowValue (map canonical v)
  | OutForecast v => OutForecast v
  | OutContainers v => OutContainers (map canonical v)
  end.

Inductive outcome : Type :=
| ParseFailure (e : exn)     (* [st.error("Failed to parse CSV: ...")], [st.stop()] *)
| Uncaught (e : exn)         (* an exception outside the [try] block *)
| Dashboard (preview : list FunctionRecord)
            (views : list (view_id * view_output)).

Definition has_column (name : string) (df : DataFrame) : bool :=
  match index_of name (columns df) with Some _ => true | None => false end.

Section Pipeline.

Variable str_to_float : string -> option float.

(** The whole script.  The coercion loop reads the eight numeric columns;
    [FunctionName] is first read when view 2 projects its output (the
    preview and view 1 are on screen by then; the outcome records the
    exception only).  No other column is read by name. *)
Definition pipeline (f : UploadedFile) : outcome :=
  match load f with
  | inl e => ParseFailure e
  | inr df =>
      match coerce str_to_float df with
      | inl e => Uncaught e
      | inr df' =>
          if has_column "FunctionName" df' then
            let rows := records df' in
            Dashboard rows (fst (run script_order rows))
          else Uncaught (KeyError "FunctionName")
      end
  end.

End Pipeline.

(* ================================================================== *)
(** * Sample inputs *)
(* ================================================================== *)

(** A reader for plain decimals (an optional sign, digits, an optional
    fraction), enough to run the loader on sample files. *)
Definition digit_of (c : ascii) : option Z :=
  let n := (Z.of_nat (nat_of_ascii c) - 48)%Z in
  if ((0 <=? n) && (n <=? 9))%Z then Some n else None.

Fixpoint read_digits (s : string) (acc : Z) (scale : option Z)
  : option (Z * Z) :=
  match s with
  | EmptyString => Some (acc, match scale with Some k => k | None => 1%Z end)
  | String c rest =>
      if Ascii.eqb c "."%char then
        match scale with
        | None => read_digits rest acc (Some 1%Z)
        | Some _ => None
        end
      else
        match digit_of c with
        | Some d => read_digits rest (10 * acc + d)%Z
                                (option_map (Z.mul 10) scale)
        | None => None
        end
  end.

Definition ratio (m k : Z) : float :=
  of_uint63 (Uint63.of_Z m) / of_uint63 (Uint63.of_Z k).

Definition decimal_to_float (s : string) : option float :=
  match s with
  | EmptyString => None
  | String c rest =>
      if Ascii.eqb c "-"%char then
        match rest with
        | EmptyString => None
        | _ => option_map (fun mk => - ratio (fst mk) (snd mk))
                          (read_digits rest 0%Z None)
        end
      else option_map (fun mk => ratio (fst mk) (snd mk))
                      (read_digits s 0%Z None)
  end.

(** A row with the given numeric fields. *)
Definition sample_row (name : string)
    (inv avg mem csr pcv dt cost : float) : FunctionRecord :=
  mkRecord (CStr name) (CStr "prod") inv avg mem csr pcv 0 dt cost None.

(** Costs 30, 50, 20: the example of the specification. *)
Definition costs_50_30_20 : list FunctionRecord :=
  [ sample_row "resize" 1000 120 512 2 0 1 30;
    sample_row "ingest" 9000 300 1024 1 0 4 50;
    sample_row "report" 200 900 256 7 0 0 20 ].

(** A table with credits: costs 3, -1, -1. *)
Definition costs_with_credits : list FunctionRecord :=
  [ sample_row "api" 1000 120 512 2 0 1 3;
    sample_row "refund" 10 50 128 1 0 0 (-1);
    sample_row "rebate" 10 50 128 1 0 0 (-1) ].

(** A table whose costs are all zero. *)
Definition costs_all_zero : list FunctionRecord :=
  [ sample_row "idle" 0 0 128 0 0 0 0;
    sample_row "stub" 5 10 128 0 0 0 (-0);
    sample_row "noop" 1 1 128 0 0 0 0 ].

(** A table with an infinite cost. *)
Definition costs_with_infinity : list FunctionRecord :=
  [ sample_row "meter" 10 50 128 1 0 0 1;
    sample_row "runaway" 1000 120 512 2 0 1 infinity ].

(** Rows for the filtering views. *)
Definition row_thumb : FunctionRecord :=
  sample_row "thumb" 1000000 500 2048 5 5 0 100.

Definition row_batch : FunctionRecord :=
  sample_row "batch" 40 700 2048 15 5 12 100.

Definition row_etl : FunctionRecord :=
  sample_row "etl" 20 4000 4096 1 0 3 900.

Definition row_gap : FunctionRecord :=
  sample_row "gap" nan nan nan nan nan nan nan.

Definition row_probe : FunctionRecord :=
  sample_row "probe" 1000000 100 128 15 5 0 100.

Definition mixed_rows : list FunctionRecord :=
  [ row_thumb; row_batch; row_etl; row_gap; row_probe ].

(** The parsed form of [well_formed_file] below. *)
Definition well_formed_frame : DataFrame :=
  mkDataFrame canonical_columns
    [[CStr "resize"; CStr "prod"; CNum 1000; CStr "120"; CNum 512;
      CNum 2; CNum 0; CNum 61.4; CNum 1; CNum 30];
     [CStr "ingest"; CStr "prod"; CNum 9000; CStr "fast"; CNum 1024;
      CNum 1; CNum 2; CNum 2764.8; CNum 4; CNum 50]].

(** A file in which every line is one quoted field:
<<
"FunctionName,Environment,...,CostUSD"
"resize,prod,1000,120,512,2,0,61.4,1,30"
>>
    The parse with a header has one column; without a header, column 0
    holds both lines. *)
Definition quoted_header : string :=
  "FunctionName,Environment,InvocationsPerMonth,AvgDurationMs,MemoryMB,ColdStartRate,ProvisionedConcurrency,GBSeconds,DataTransferGB,CostUSD".

Definition quoted_lines_file : UploadedFile :=
  mkUpload
    (inr (mkDataFrame [quoted_header]
            [[CStr "resize,prod,1000,120,512,2,0,61.4,1,30"]]))
    (inr [CStr quoted_header;
          CStr "resize,prod,1000,120,512,2,0,61.4,1,30"]).

(** The same shape with eleven fields in the data line. *)
Definition eleven_fields_file : UploadedFile :=
  mkUpload
    (inr (mkDataFrame [quoted_header]
            [[CStr "resize,prod,1000,120,512,2,0,61.4,1,30,extra"]]))
    (inr [CStr quoted_header;
          CStr "resize,prod,1000,120,512,2,0,61.4,1,30,extra"]).

(** A file with a single bare column of words. *)
Definition three_words_file : UploadedFile :=
  mkUpload
    (inr (mkDataFrame ["name"%string] [[CStr "alpha"]; [CStr "beta"]]))
    (inr [CStr "name"; CStr "alpha"; CStr "beta"]).

(** A well-formed file with the ten columns, as [pd.read_csv] returns it;
    one duration is not a number, so that column arrives as text. *)
Definition well_formed_file : UploadedFile :=
  mkUpload (inr well_formed_frame)
           (inr [CStr "FunctionName"; CStr "resize"; CStr "ingest"]).

(** A file that parses into two columns, neither of them in the schema:
<<
a,b
1,2
>> *)
Definition two_columns_file : UploadedFile :=
  mkUpload
    (inr (mkDataFrame ["a"%string; "b"%string] [[CNum 1; CNum 2]]))
    (inr [CStr "a"; CStr "1"]).

(** A file the parser rejects. *)
Definition unreadable_file : UploadedFile :=
  mkUpload (inl (ParserError "Error tokenizing data"))
           (inl (ParserError "Error tokenizing data")).

(* ================================================================== *)
(** * Auxiliary notions *)
(* ================================================================== *)

(** The number of commas of a text. *)
Fixpoint count_commas (s : string) : nat :=
  match s with
  | EmptyString => 0
  | String c rest =>
      ((if Ascii.eqb c ","%char then 1 else 0) + count_commas rest)%nat
  end.

(** The first of [names] that is not a column label. *)
Fixpoint first_absent (names cols : list string) : option string :=
  match names with
  | [] => None
  | n :: rest =>
      match index_of n cols with
      | Some _ => first_absent rest cols
      | None => Some n
      end
  end.

(** A table each of whose rows has one cell per column. *)
Definition rectangular (df : DataFrame) : Prop :=
  forall row, In row (data df) -> length row = length (columns df).

(** More sample rows: provisioned concurrency with no cold-start rate on
    record; a right-sizing candidate with no cost on record; a table with
    no invocation on record. *)
Definition row_unknown_rate : FunctionRecord :=
  sample_row "warm" 10 10 128 nan 3 0 1.

Definition row_unbilled : FunctionRecord :=
  sample_row "unbilled" 10 100 2048 1 0 0 nan.


Definition rows_without_invocations : list FunctionRecord :=
  [ sample_row "idle" 0 0 128 0 0 0 1;
    sample_row "lost" nan 10 128 0 0 0 100;
    sample_row "stub" (-0) 1 128 0 0 0 4 ].

(* ================================================================== *)
(** * Any order of additions, any placement of ties *)
(* ================================================================== *)

(** [ndarray.sum()] adds the elements in blocks that depend on the length
    of the array, and the default sort kind places equal keys in an order
    of its own.  What the two calls guarantee is stated here as relations;
    [np_sum] and [sort_values_desc] above are one instance of each. *)

(** A way of adding numbers up: which are added to which, in what order. *)
Inductive sum_tree : Type :=
| Leaf (x : float)
| Node (l r : sum_tree).

Fixpoint eval_sum (tr : sum_tree) : float :=
  match tr with
  | Leaf x => x
  | Node l r => eval_sum l + eval_sum r
  end.

Fixpoint leaves (tr : sum_tree) : list float :=
  match tr with
  | Leaf x => [x]
  | Node l r => leaves l ++ leaves r
  end.

(** [t] is the sum of [xs], each element added once, in some order,
    possibly with zeros added in (the [-0.0] an accumulator starts from,
    the [0] that stands for a missing value). *)
Definition sum_in_some_order (xs : list float) (t : float) : Prop :=
  exists tr zs,
    Permutation (leaves tr) (xs ++ zs)
    /\ (forall z, In z zs -> (z =? 0) = true)
    /\ eval_sum tr = t.

(** [s] is [df] in descending order of [CostUSD]. *)
Definition sorted_by_cost (df s : list FunctionRecord) : Prop :=
  Permutation s df /\ descending (map CostUSD s) = true.

(** Lines 65-66 for a given total [t] and a given order [s] of the rows. *)
Definition rank_with (t : float) (s : list FunctionRecord) : list Ranked :=
  let pct := map (fun r => CostUSD r / t * 100) s in
  zip_ranked s pct (cumsum pct).

(** Line 68. *)
Definition select_80 (ranked : list Ranked) : list Ranked :=
  filter (fun a => CumulativeCost a <=? 80) ranked.

(** The left-to-right order of [np_sum]. *)
Fixpoint left_tree (acc : sum_tree) (xs : list float) : sum_tree :=
  match xs with
  | [] => acc
  | x :: rest => left_tree (Node acc (Leaf x)) rest
  end.

(** Ten functions costing 0.1 each, and the order in which numpy adds ten
    numbers: the first to the blocked sum of the other nine. *)
Definition ten_dimes : list FunctionRecord :=
  map (fun inv => sample_row "dime" inv 50 128 1 0 0 0.1)
      [1; 2; 3; 4; 5; 6; 7; 8; 9; 10].

Definition numpy_tree_10 (a : float) : sum_tree :=
  let p := Node (Leaf a) (Leaf a) in
  Node (Leaf a) (Node (Node (Node p p) (Node p p)) (Leaf a)).

(* ================================================================== *)
(** * Column dtypes in the forecast (lines 128-134) *)
(* ================================================================== *)


Definition wrap64 (z : Z) : Z := ((z + 2 ^ 63) mod 2 ^ 64 - 2 ^ 63)%Z.







(* ================================================================== *)
(** * Binary64 facts

    The kernel evaluates float operations on closed terms; facts about
    arbitrary floats come from the specification of the primitive
    operations ([FloatAxioms]) over [SpecFloat]. *)
(* ================================================================== *)

Module F64.

(** ** Order on specification floats *)

Lemma SFcompare_refl_finite s m e :
  SFcompare (S754_finite s m e) (S754_finite s m e) = Some Eq.
Proof.
  unfold SFcompare. rewrite Z.compare_refl.
  change (Pos.compare_cont Eq m m) with (Pos.compare m m).
  rewrite Pos.compare_refl. destruct s; reflexivity.
Qed.

Ltac sf_compare_cases :=
  repeat match goal with
  | H : context [Z.compare ?a ?b] |- _ => destruct (Z.compare_spec a b)
  | |- context [Z.compare ?a ?b] => destruct (Z.compare_spec a b)
  | H : context [Pos.compare_cont Eq ?a ?b] |- _ =>
      change (Pos.compare_cont Eq a b) with (Pos.compare a b) in *;
      destruct (Pos.compare_spec a b)
  | |- context [Pos.compare_cont Eq ?a ?b] =>
      change (Pos.compare_cont Eq a b) with (Pos.compare a b) in *;
      destruct (Pos.compare_spec a b)
  end.

Ltac sf_order :=
  unfold SFleb, SFltb, SFeqb, SFcompare in *;
  repeat match goal with s : bool |- _ => destruct s end;
  sf_compare_cases;
  subst; simpl in *;
  try reflexivity; try discriminate; try congruence; try lia.

Lemma SFleb_refl (x : spec_float) : x <> S754_nan -> SFleb x x = true.
Proof. destruct x; intros; sf_order. Qed.

Lemma SFleb_trans (x y z : spec_float) :
  SFleb x y = true -> SFleb y z = true -> SFleb x z = true.
Proof. destruct x, y, z; intros; sf_order. Qed.

Lemma SFltb_leb_trans (x y z : spec_float) :
  SFltb x y = true -> SFleb y z = true -> SFltb x z = true.
Proof. destruct x, y, z; intros; sf_order. Qed.

Lemma SFleb_total (x y : spec_float) :
  x <> S754_nan -> y <> S754_nan -> SFleb x y = false -> SFltb y x = true.
Proof. destruct x, y; intros; sf_order. Qed.


(** ** Mantissa shifts *)

Local Open Scope Z_scope.

Lemma digits2_size (p : positive) : digits2_pos p = Pos.size p.
Proof. induction p; simpl; congruence. Qed.

Lemma digits_upper (p : positive) : Z.pos p < 2 ^ Z.pos (digits2_pos p).
Proof.
  rewrite digits2_size. pose proof (Pos.size_gt p) as H.
  apply Pos2Z.pos_lt_pos in H. rewrite Pos2Z.inj_pow in H. exact H.
Qed.

Lemma digits_lower (p : positive) : 2 ^ (Z.pos (digits2_pos p) - 1) <= Z.pos p.
Proof.
  rewrite digits2_size. pose proof (Pos.size_le p) as H.
  apply Pos2Z.pos_le_pos in H. rewrite Pos2Z.inj_pow in H.
  replace (Z.pos (Pos.size p)) with (Z.succ (Z.pos (Pos.size p) - 1)) in H by lia.
  rewrite Z.pow_succ_r in H by lia.
  pose proof (Pos2Z.inj_xO p). lia.
Qed.

(** Iterated halving. *)
Lemma shr_1_m (r : shr_record) : 0 <= shr_m r -> shr_m (shr_1 r) = shr_m r / 2.
Proof.
  destruct r as [m r s]; simpl. intros Hm.
  destruct m as [|p|p]; [reflexivity | | lia].
  destruct p; simpl.
  - pose proof (Pos2Z.inj_xI p). apply Z.div_unique with (r := 1); lia.
  - pose proof (Pos2Z.inj_xO p). apply Z.div_unique with (r := 0); lia.
  - reflexivity.
Qed.

Lemma iter_shr_1_m (n : positive) : forall r : shr_record,
  0 <= shr_m r ->
  shr_m (iter_pos shr_1 n r) = shr_m r / 2 ^ Z.pos n.
Proof.
  induction n as [n IH|n IH|]; intros r Hr; simpl iter_pos.
  - assert (H1 : 0 <= shr_m (shr_1 r)).
    { rewrite shr_1_m by exact Hr. apply Z.div_pos; lia. }
    assert (H2 : 0 <= shr_m (iter_pos shr_1 n (shr_1 r))).
    { rewrite IH by exact H1. apply Z.div_pos; [exact H1 | apply Z.pow_pos_nonneg; lia]. }
    rewrite IH by exact H2. rewrite IH by exact H1. rewrite shr_1_m by exact Hr.
    rewrite !Z.div_div by (try apply Z.pow_pos_nonneg; lia).
    f_equal.
    replace (Z.pos n~1) with (1 + Z.pos n + Z.pos n) by (pose proof (Pos2Z.inj_xI n); lia).
    rewrite !Z.pow_add_r by lia. rewrite Z.pow_1_r. ring.
  - assert (H2 : 0 <= shr_m (iter_pos shr_1 n r)).
    { rewrite IH by exact Hr. apply Z.div_pos; [exact Hr | apply Z.pow_pos_nonneg; lia]. }
    rewrite IH by exact H2. rewrite IH by exact Hr.
    rewrite !Z.div_div by (try apply Z.pow_pos_nonneg; lia).
    f_equal.
    replace (Z.pos n~0) with (Z.pos n + Z.pos n) by (pose proof (Pos2Z.inj_xO n); lia).
    rewrite !Z.pow_add_r by lia. ring.
  - rewrite shr_1_m by exact Hr. reflexivity.
Qed.

(** What [shr] yields for a non-negative shift. *)
Lemma shr_m_spec (r : shr_record) (e n : Z) :
  0 <= shr_m r -> 0 <= n ->
  shr_m (fst (shr r e n)) = shr_m r / 2 ^ n /\ snd (shr r e n) = e + n.
Proof.
  intros Hr Hn. destruct n as [|p|p]; simpl.
  - rewrite Z.div_1_r. split; [reflexivity | lia].
  - split; [apply iter_shr_1_m; exact Hr | reflexivity].
  - lia.
Qed.

Lemma shr_record_of_loc_m (m : Z) (l : location) : shr_m (shr_record_of_loc m l) = m.
Proof. destruct l as [|[| |]]; reflexivity. Qed.

Lemma round_nearest_even_ge (m : Z) (l : location) : m <= round_nearest_even m l <= m + 1.
Proof.
  unfold round_nearest_even. destruct l as [|[| |]]; try lia.
  destruct (Z.even m); lia.
Qed.

Lemma iter_xO (d : positive) (m : positive) :
  Z.pos (Pos.iter xO m d) = Z.pos m * 2 ^ Z.pos d.
Proof.
  induction d using Pos.peano_ind.
  - simpl. pose proof (Pos2Z.inj_xO m). lia.
  - rewrite Pos.iter_succ, Pos2Z.inj_succ, Z.pow_succ_r by lia.
    pose proof (Pos2Z.inj_xO (Pos.iter xO m d)). lia.
Qed.

Lemma shl_align_fst (m : positive) (e e' : Z) :
  e' <= e -> Z.pos (fst (shl_align m e e')) = Z.pos m * 2 ^ (e - e').
Proof.
  intros H. unfold shl_align.
  destruct (e' - e) as [|p|p] eqn:E; cbn [fst].
  - replace (e - e') with 0 by lia. rewrite Z.pow_0_r. lia.
  - lia.
  - rewrite iter_xO. f_equal. f_equal. lia.
Qed.

Lemma shr_cases (r : shr_record) (e n : Z) :
  0 <= shr_m r ->
  (n <= 0 /\ shr r e n = (r, e)) \/
  (0 < n /\ shr_m (fst (shr r e n)) = shr_m r / 2 ^ n /\ snd (shr r e n) = e + n).
Proof.
  intros Hr. destruct n as [|p|p].
  - left. split; [lia | reflexivity].
  - right. split; [lia |]. apply shr_m_spec; [exact Hr | lia].
  - left. split; [lia | reflexivity].
Qed.

Lemma fexp_unfold (e : Z) : fexp prec emax e = Z.max (e - 53) (-1074).
Proof. reflexivity. Qed.

Lemma bounded_unfold (m : positive) (e : Z) :
  bounded prec emax m e = true ->
  Z.max (Z.pos (digits2_pos m) + e - 53) (-1074) = e /\ e <= 971.
Proof.
  unfold bounded, canonical_mantissa. rewrite fexp_unfold.
  intros H. apply andb_prop in H. destruct H as [H1 H2].
  apply Z.eqb_eq in H1. apply Z.leb_le in H2.
  change (emax - prec) with 971 in H2. lia.
Qed.

Lemma two_pow_pos (n : Z) : 0 <= n -> 0 < 2 ^ n.
Proof. intros. apply Z.pow_pos_nonneg; lia. Qed.

(** Rounding a positive integer [M * 2^ez] that is at least the canonical
    float [mx * 2^ex] gives a float that compares at or above it. *)
Lemma binary_round_lower (mx M : positive) (ex ez : Z) :
  bounded prec emax mx ex = true ->
  ez <= ex ->
  Z.pos mx * 2 ^ (ex - ez) <= Z.pos M ->
  SFleb (S754_finite false mx ex) (binary_round prec emax false M ez) = true.
Proof.
  intros Hb Hez HM.
  apply bounded_unfold in Hb. destruct Hb as [Hcan Hex].
  pose proof (digits_lower mx) as Hmx_lo.
  pose proof (digits_upper M) as HM_up.
  pose proof (digits_lower M) as HM_lo.
  set (dx := Z.pos (digits2_pos mx)) in *.
  set (D := Z.pos (digits2_pos M)) in *.
  assert (Hdx : 1 <= dx) by (unfold dx; lia).
  assert (HD : 1 <= D) by (unfold D; lia).
  assert (Hdig : dx + ex <= D + ez).
  { assert (Hlt : 2 ^ (dx - 1 + (ex - ez)) < 2 ^ D).
    { rewrite Z.pow_add_r by lia.
      pose proof (two_pow_pos (ex - ez) ltac:(lia)).
      nia. }
    apply Z.pow_lt_mono_r_iff in Hlt; lia. }
  set (E := Z.max (D + ez - 53) (-1074)).
  assert (HE : ex <= E) by (unfold E; lia).
  unfold binary_round.
  fold D. rewrite fexp_unfold. fold E.
  assert (Hshl : shl_align M ez E = (M, ez)).
  { unfold shl_align. destruct (E - ez) eqn:Hd; try reflexivity. lia. }
  rewrite Hshl.
  unfold binary_round_aux.
  (* first shift *)
  unfold shr_fexp at 1.
  change (Zdigits2 (Z.pos M)) with D.
  rewrite fexp_unfold. fold E.
  change (shr_record_of_loc (Z.pos M) loc_Exact)
    with {| shr_m := Z.pos M; shr_r := false; shr_s := false |}.
  set (r0 := {| shr_m := Z.pos M; shr_r := false; shr_s := false |}).
  destruct (shr_m_spec r0 ez (E - ez)) as [Hm' He']; [simpl; lia | lia |].
  destruct (shr r0 ez (E - ez)) as [mrs' e'] eqn:Hshr1.
  cbn [fst snd] in Hm', He'.
  change (shr_m r0) with (Z.pos M) in Hm'.
  assert (He'E : e' = E) by lia. clear He'.
  assert (Hm'1 : 1 <= shr_m mrs').
  { rewrite Hm'. apply Z.div_le_lower_bound; [apply two_pow_pos; lia |].
    rewrite Z.mul_1_r.
    apply Z.le_trans with (2 ^ (D - 1)); [| exact HM_lo].
    apply Z.pow_le_mono_r; [lia |]. unfold E. lia. }
  pose proof (round_nearest_even_ge (shr_m mrs') (loc_of_shr_record mrs')) as Hrne.
  set (m1 := round_nearest_even (shr_m mrs') (loc_of_shr_record mrs')) in *.
  (* second shift *)
  unfold shr_fexp.
  rewrite fexp_unfold.
  assert (Hm1 : 1 <= m1) by lia.
  destruct m1 as [|q|q] eqn:Hq; try lia.
  cbn [Zdigits2].
  change (shr_record_of_loc (Z.pos q) loc_Exact)
    with {| shr_m := Z.pos q; shr_r := false; shr_s := false |}.
  set (r1 := {| shr_m := Z.pos q; shr_r := false; shr_s := false |}).
  set (n2 := Z.max (Z.pos (digits2_pos q) + e' - 53) (-1074) - e').
  pose proof (digits_lower q) as Hq_lo.
  destruct (shr_cases r1 e' n2) as [[Hn2 Heq] | [Hn2 [Hm2 He2]]]; [simpl; lia | |].
  - rewrite Heq. cbn [shr_m r1].
    destruct (e' <=? emax - prec) eqn:Hov; [| reflexivity].
    unfold SFleb, SFcompare.
    destruct (Z.compare_spec ex e'); try reflexivity; try lia.
    change (Pos.compare_cont Eq mx q) with (Pos.compare mx q).
    assert (Hmq : Z.pos mx <= Z.pos q).
    { apply Z.le_trans with (shr_m mrs'); [| lia].
      rewrite Hm'. apply Z.div_le_lower_bound; [apply two_pow_pos; lia |].
      replace (E - ez) with (ex - ez) by lia. lia. }
    destruct (Pos.compare_spec mx q); try reflexivity. lia.
  - destruct (shr r1 e' n2) as [mrs'' e''] eqn:Hshr2.
    cbn [fst snd] in Hm2, He2.
    change (shr_m r1) with (Z.pos q) in Hm2.
    assert (Hm2pos : 1 <= shr_m mrs'').
    { rewrite Hm2. apply Z.div_le_lower_bound; [apply two_pow_pos; lia |].
      rewrite Z.mul_1_r.
      apply Z.le_trans with (2 ^ (Z.pos (digits2_pos q) - 1)); [| exact Hq_lo].
      apply Z.pow_le_mono_r; [lia |]. unfold n2, E in *. lia. }
    destruct (shr_m mrs'') as [|q2|q2]; try lia.
    destruct (e'' <=? emax - prec) eqn:Hov; [| reflexivity].
    unfold SFleb, SFcompare.
    destruct (Z.compare_spec ex e''); try reflexivity; lia.
Qed.

(** ** Signs and monotonicity of the rounded operations *)

Lemma SFadd_nonneg_mono (x y : spec_float) :
  valid_binary x = true ->
  valid_binary y = true ->
  SFleb (S754_zero false) x = true ->
  SFleb (S754_zero false) y = true ->
  SFleb x (SFadd prec emax x y) = true.
Proof.
  intros Vx Vy Hx Hy.
  destruct x as [sx|sx| |sx mx ex]; try discriminate Hx;
  destruct y as [sy|sy| |sy my ey]; try discriminate Hy.
  - destruct sx, sy; reflexivity.
  - destruct sy; [discriminate Hy | reflexivity].
  - destruct sy; [discriminate Hy | reflexivity].
  - destruct sx; [discriminate Hx | destruct sy; reflexivity].
  - destruct sx; [discriminate Hx |]. destruct sy; [discriminate Hy | reflexivity].
  - destruct sx; [discriminate Hx | reflexivity].
  - destruct sx; [discriminate Hx |]. simpl SFadd.
    apply SFleb_refl. discriminate.
  - destruct sx; [discriminate Hx |]. destruct sy; [discriminate Hy | reflexivity].
  - destruct sx; [discriminate Hx |]. destruct sy; [discriminate Hy |].
    unfold SFadd, cond_Zopp.
    set (ez := Z.min ex ey).
    pose proof (shl_align_fst mx ex ez ltac:(unfold ez; lia)) as Ha.
    pose proof (shl_align_fst my ey ez ltac:(unfold ez; lia)) as Hb.
    destruct (shl_align mx ex ez) as [a ea].
    destruct (shl_align my ey ez) as [b eb].
    cbn [fst] in *.
    change (Z.pos a + Z.pos b) with (Z.pos (a + b)).
    unfold binary_normalize.
    apply binary_round_lower.
    + exact Vx.
    + unfold ez; lia.
    + rewrite Pos2Z.inj_add. lia.
Qed.

Lemma SFadd_nonneg_mono_r (x y : spec_float) :
  valid_binary x = true ->
  valid_binary y = true ->
  SFleb (S754_zero false) x = true ->
  SFleb (S754_zero false) y = true ->
  SFleb y (SFadd prec emax x y) = true.
Proof.
  intros Vx Vy Hx Hy.
  destruct x as [sx|sx| |sx mx ex]; try discriminate Hx;
  destruct y as [sy|sy| |sy my ey]; try discriminate Hy.
  - destruct sx, sy; reflexivity.
  - destruct sy; [discriminate Hy | reflexivity].
  - destruct sy; [discriminate Hy |]. simpl SFadd.
    apply SFleb_refl. discriminate.
  - destruct sx; [discriminate Hx | destruct sy; reflexivity].
  - destruct sx; [discriminate Hx |]. destruct sy; [discriminate Hy | reflexivity].
  - destruct sx; [discriminate Hx |]. destruct sy; [discriminate Hy | reflexivity].
  - destruct sx; [discriminate Hx | reflexivity].
  - destruct sx; [discriminate Hx |]. destruct sy; [discriminate Hy | reflexivity].
  - destruct sx; [discriminate Hx |]. destruct sy; [discriminate Hy |].
    unfold SFadd, cond_Zopp.
    set (ez := Z.min ex ey).
    pose proof (shl_align_fst mx ex ez ltac:(unfold ez; lia)) as Ha.
    pose proof (shl_align_fst my ey ez ltac:(unfold ez; lia)) as Hb.
    destruct (shl_align mx ex ez) as [a ea].
    destruct (shl_align my ey ez) as [b eb].
    cbn [fst] in *.
    change (Z.pos a + Z.pos b) with (Z.pos (a + b)).
    unfold binary_normalize.
    apply binary_round_lower.
    + exact Vy.
    + unfold ez; lia.
    + rewrite Pos2Z.inj_add. lia.
Qed.

(** The sign of a rounded result. *)
Lemma binary_round_aux_shape (s : bool) (m e : Z) (l : location) :
  0 <= m ->
  let r := binary_round_aux prec emax s m e l in
  r = S754_zero s \/ r = S754_infinity s \/ exists m' e', r = S754_finite s m' e'.
Proof.
  intros Hm. unfold binary_round_aux, shr_fexp.
  set (n1 := fexp prec emax (Zdigits2 m + e) - e).
  assert (H0 : 0 <= shr_m (shr_record_of_loc m l)) by (rewrite shr_record_of_loc_m; exact Hm).
  assert (H1 : 0 <= shr_m (fst (shr (shr_record_of_loc m l) e n1))).
  { destruct (shr_cases (shr_record_of_loc m l) e n1 H0) as [[_ Heq] | [Hn [Hq _]]].
    - rewrite Heq. exact H0.
    - rewrite Hq. apply Z.div_pos; [exact H0 | apply two_pow_pos; lia]. }
  destruct (shr (shr_record_of_loc m l) e n1) as [mrs' e'].
  cbn [fst] in H1.
  pose proof (round_nearest_even_ge (shr_m mrs') (loc_of_shr_record mrs')) as Hrne.
  set (m1 := round_nearest_even (shr_m mrs') (loc_of_shr_record mrs')) in *.
  set (n2 := fexp prec emax (Zdigits2 m1 + e') - e').
  assert (H2 : 0 <= shr_m (shr_record_of_loc m1 loc_Exact)) by (simpl; lia).
  assert (H3 : 0 <= shr_m (fst (shr (shr_record_of_loc m1 loc_Exact) e' n2))).
  { destruct (shr_cases (shr_record_of_loc m1 loc_Exact) e' n2 H2) as [[_ Heq] | [Hn [Hq _]]].
    - rewrite Heq. exact H2.
    - rewrite Hq. apply Z.div_pos; [exact H2 | apply two_pow_pos; lia]. }
  destruct (shr (shr_record_of_loc m1 loc_Exact) e' n2) as [mrs'' e''].
  cbn [fst] in H3.
  destruct (shr_m mrs'') as [|q|q]; [left; reflexivity | | lia].
  right. destruct (e'' <=? emax - prec); [right; eauto | left; reflexivity].
Qed.

Lemma binary_round_aux_nonneg (m e : Z) (l : location) :
  0 <= m -> SFleb (S754_zero false) (binary_round_aux prec emax false m e l) = true.
Proof.
  intros Hm. destruct (binary_round_aux_shape false m e l Hm) as [H | [H | [m' [e' H]]]];
    rewrite H; reflexivity.
Qed.

Lemma SFdiv_core_nonneg (m1 m2 : positive) (e1 e2 : Z) :
  0 <= fst (fst (SFdiv_core_binary prec emax (Z.pos m1) e1 (Z.pos m2) e2)).
Proof.
  unfold SFdiv_core_binary.
  set (s := e1 - e2 - _).
  set (m' := match s with Z0 => Z.pos m1 | Z.pos _ => Z.shiftl (Z.pos m1) s | Z.neg _ => 0 end).
  assert (Hm' : 0 <= m').
  { unfold m'. destruct s; try lia. apply Z.shiftl_nonneg. lia. }
  pose proof (Z_div_mod m' (Z.pos m2) ltac:(lia)) as Hdm.
  destruct (Z.div_eucl m' (Z.pos m2)) as [q r]. cbn [fst]. nia.
Qed.

Lemma SFdiv_nonneg (c t : spec_float) :
  SFleb (S754_zero false) c = true ->
  SFltb c (S754_infinity false) = true ->
  SFltb (S754_zero false) t = true ->
  SFleb (S754_zero false) (SFdiv prec emax c t) = true.
Proof.
  intros Hc Hfin Ht.
  destruct c as [sc|sc| |sc mc ec]; try discriminate Hc;
  destruct t as [st|st| |st mt et]; try discriminate Ht.
  - reflexivity.
  - reflexivity.
  - destruct sc; discriminate.
  - destruct sc; discriminate.
  - reflexivity.
  - destruct sc; [discriminate Hc |]. destruct st; [discriminate Ht |].
    unfold SFdiv.
    pose proof (SFdiv_core_nonneg mc mt ec et) as Hq.
    destruct (SFdiv_core_binary prec emax (Z.pos mc) ec (Z.pos mt) et) as [[q e'] l].
    cbn [fst] in Hq. apply binary_round_aux_nonneg. exact Hq.
Qed.

Lemma SFmul_nonneg (p k : spec_float) :
  SFleb (S754_zero false) p = true ->
  SFltb (S754_zero false) k = true ->
  SFltb k (S754_infinity false) = true ->
  SFleb (S754_zero false) (SFmul prec emax p k) = true.
Proof.
  intros Hp Hk Hfin.
  destruct p as [sp|sp| |sp mp ep]; try discriminate Hp;
  destruct k as [sk|sk| |sk mk ek]; try discriminate Hk.
  - destruct sk; discriminate.
  - reflexivity.
  - destruct sk; discriminate.
  - destruct sp; [discriminate Hp |]. destruct sk; [discriminate Hk | reflexivity].
  - destruct sk; discriminate.
  - destruct sp; [discriminate Hp |]. destruct sk; [discriminate Hk |].
    unfold SFmul. apply binary_round_aux_nonneg. cbn. lia.
Qed.

Local Close Scope Z_scope.
Local Open Scope float_scope.

(** ** The same facts on primitive floats *)

Lemma is_nan_spec (x : float) : is_nan x = true <-> Prim2SF x = S754_nan.
Proof.
  unfold is_nan. rewrite FloatAxioms.eqb_spec.
  destruct (Prim2SF x) as [s|s| |s m e] eqn:E.
  - simpl. split; discriminate.
  - destruct s; simpl; split; discriminate.
  - simpl. split; reflexivity.
  - assert (H : SFeqb (S754_finite s m e) (S754_finite s m e) = true).
    { unfold SFeqb. rewrite (SFcompare_refl_finite s m e). reflexivity. }
    rewrite H. simpl. split; discriminate.
Qed.

Lemma is_nan_false_spec (x : float) : is_nan x = false <-> Prim2SF x <> S754_nan.
Proof.
  rewrite <- is_nan_spec. destruct (is_nan x); split; congruence.
Qed.

Lemma ltb_nan_l (x y : float) : is_nan x = true -> (x <? y) = false.
Proof.
  intros H. apply is_nan_spec in H. rewrite FloatAxioms.ltb_spec, H. reflexivity.
Qed.

Lemma ltb_nan_r (x y : float) : is_nan y = true -> (x <? y) = false.
Proof.
  intros H. apply is_nan_spec in H. rewrite FloatAxioms.ltb_spec, H.
  destruct (Prim2SF x); reflexivity.
Qed.

Lemma leb_nan_l (x y : float) : is_nan x = true -> (x <=? y) = false.
Proof.
  intros H. apply is_nan_spec in H. rewrite FloatAxioms.leb_spec, H. reflexivity.
Qed.

Lemma leb_nan_r (x y : float) : is_nan y = true -> (x <=? y) = false.
Proof.
  intros H. apply is_nan_spec in H. rewrite FloatAxioms.leb_spec, H.
  destruct (Prim2SF x); reflexivity.
Qed.

Lemma leb_not_nan (x y : float) :
  (x <=? y) = true -> is_nan x = false /\ is_nan y = false.
Proof.
  intros H. split.
  - destruct (is_nan x) eqn:E; [| reflexivity].
    rewrite (leb_nan_l x y E) in H. discriminate.
  - destruct (is_nan y) eqn:E; [| reflexivity].
    rewrite (leb_nan_r x y E) in H. discriminate.
Qed.

Lemma ltb_not_nan (x y : float) :
  (x <? y) = true -> is_nan x = false /\ is_nan y = false.
Proof.
  intros H. split.
  - destruct (is_nan x) eqn:E; [| reflexivity].
    rewrite (ltb_nan_l x y E) in H. discriminate.
  - destruct (is_nan y) eqn:E; [| reflexivity].
    rewrite (ltb_nan_r x y E) in H. discriminate.
Qed.

Lemma leb_refl (x : float) : is_nan x = false -> (x <=? x) = true.
Proof.
  intros H. apply is_nan_false_spec in H. rewrite FloatAxioms.leb_spec.
  apply SFleb_refl. exact H.
Qed.

Lemma leb_trans (x y z : float) :
  (x <=? y) = true -> (y <=? z) = true -> (x <=? z) = true.
Proof. rewrite !FloatAxioms.leb_spec. apply SFleb_trans. Qed.

Lemma ltb_leb_trans (x y z : float) :
  (x <? y) = true -> (y <=? z) = true -> (x <? z) = true.
Proof. rewrite !FloatAxioms.ltb_spec, FloatAxioms.leb_spec. apply SFltb_leb_trans. Qed.

Lemma leb_total (x y : float) :
  is_nan x = false -> is_nan y = false -> (x <=? y) = false -> (y <? x) = true.
Proof.
  intros Hx Hy. apply is_nan_false_spec in Hx. apply is_nan_false_spec in Hy.
  rewrite FloatAxioms.leb_spec, FloatAxioms.ltb_spec. apply SFleb_total; assumption.
Qed.

Lemma ltb_leb (x y : float) : (x <? y) = true -> (x <=? y) = true.
Proof.
  rewrite FloatAxioms.ltb_spec, FloatAxioms.leb_spec. unfold SFltb, SFleb.
  destruct (SFcompare (Prim2SF x) (Prim2SF y)) as [[| |]|]; congruence.
Qed.


(** Adding a non-negative number never decreases a non-negative number,
    rounding included. *)
Lemma add_nonneg_mono (x y : float) :
  (0 <=? x) = true -> (0 <=? y) = true -> (x <=? x + y) = true.
Proof.
  rewrite !FloatAxioms.leb_spec, FloatAxioms.add_spec.
  change (Prim2SF 0) with (S754_zero false).
  apply SFadd_nonneg_mono; apply Prim2SF_valid.
Qed.

Lemma add_nonneg_mono_r (x y : float) :
  (0 <=? x) = true -> (0 <=? y) = true -> (y <=? x + y) = true.
Proof.
  rewrite !FloatAxioms.leb_spec, FloatAxioms.add_spec.
  change (Prim2SF 0) with (S754_zero false).
  apply SFadd_nonneg_mono_r; apply Prim2SF_valid.
Qed.

Lemma div_nonneg (c t : float) :
  (0 <=? c) = true -> (c <? infinity) = true -> (0 <? t) = true ->
  (0 <=? c / t) = true.
Proof.
  rewrite !FloatAxioms.leb_spec, !FloatAxioms.ltb_spec, FloatAxioms.div_spec.
  change (Prim2SF 0) with (S754_zero false).
  change (Prim2SF infinity) with (S754_infinity false).
  apply SFdiv_nonneg.
Qed.

Lemma mul_nonneg (p k : float) :
  (0 <=? p) = true -> (0 <? k) = true -> (k <? infinity) = true ->
  (0 <=? p * k) = true.
Proof.
  rewrite !FloatAxioms.leb_spec, !FloatAxioms.ltb_spec, FloatAxioms.mul_spec.
  change (Prim2SF 0) with (S754_zero false).
  change (Prim2SF infinity) with (S754_infinity false).
  apply SFmul_nonneg.
Qed.

(** Zeros. *)
Lemma eqb_zero_spec (x : float) :
  (x =? 0) = true <-> exists s, Prim2SF x = S754_zero s.
Proof.
  rewrite FloatAxioms.eqb_spec. change (Prim2SF 0) with (S754_zero false).
  destruct (Prim2SF x) as [s|s| |s m e]; simpl.
  - split; eauto.
  - destruct s; split; try discriminate; intros [s' H]; discriminate.
  - split; try discriminate; intros [s' H]; discriminate.
  - destruct s; split; try discriminate; intros [s' H]; discriminate.
Qed.

Lemma add_zero_zero (x y : float) :
  (x =? 0) = true -> (y =? 0) = true -> (x + y =? 0) = true.
Proof.
  rewrite !eqb_zero_spec. intros [sx Hx] [sy Hy].
  rewrite FloatAxioms.add_spec, Hx, Hy. destruct sx, sy; simpl; eauto.
Qed.

Lemma div_zero_zero (x y : float) :
  (x =? 0) = true -> (y =? 0) = true -> is_nan (x / y) = true.
Proof.
  rewrite !eqb_zero_spec. intros [sx Hx] [sy Hy].
  apply is_nan_spec. rewrite FloatAxioms.div_spec, Hx, Hy. reflexivity.
Qed.

Lemma mul_nan_l (x y : float) : is_nan x = true -> is_nan (x * y) = true.
Proof.
  rewrite !is_nan_spec. intros H. rewrite FloatAxioms.mul_spec, H. reflexivity.
Qed.

Lemma is_nan_eq (x : float) : is_nan x = true -> x = nan.
Proof.
  intros H. apply is_nan_spec in H. apply Prim2SF_inj. rewrite H. reflexivity.
Qed.

Lemma eqb_zero_not_nan (x : float) : (x =? 0) = true -> is_nan x = false.
Proof.
  intros H. apply eqb_zero_spec in H. destruct H as [s H].
  apply is_nan_false_spec. rewrite H. discriminate.
Qed.

Lemma div_nan_l (x y : float) : is_nan x = true -> is_nan (x / y) = true.
Proof.
  rewrite !is_nan_spec. intros H. rewrite FloatAxioms.div_spec, H. reflexivity.
Qed.

End F64.

(* ================================================================== *)
(** * List facts *)
(* ================================================================== *)

Lemma map_filter_comm {A B : Type} (g : A -> B) (p : B -> bool) (l : list A) :
  map g (filter (fun x => p (g x)) l) = filter p (map g l).
Proof.
  induction l as [|x l IH]; simpl; [reflexivity |].
  destruct (p (g x)); simpl; rewrite IH; reflexivity.
Qed.

Lemma filter_ext_in_eq {A : Type} (p q : A -> bool) (l : list A) :
  (forall x, In x l -> p x = q x) -> filter p l = filter q l.
Proof.
  induction l as [|x l IH]; intros H; simpl; [reflexivity |].
  rewrite (H x (or_introl eq_refl)), IH; [reflexivity |].
  intros y Hy. apply H. right. exact Hy.
Qed.

Lemma filter_none {A : Type} (p : A -> bool) (l : list A) :
  (forall x, In x l -> p x = false) -> filter p l = [].
Proof.
  induction l as [|x l IH]; intros H; simpl; [reflexivity |].
  rewrite (H x (or_introl eq_refl)). apply IH.
  intros y Hy. apply H. right. exact Hy.
Qed.

(* ================================================================== *)
(** * View 2: right-sizing *)
(* ================================================================== *)

Lemma right_sizing_rows (df : list FunctionRecord) :
  map sized_row (right_sizing df) = filter right_sizing_filter df.
Proof.
  unfold right_sizing. rewrite map_map. simpl. apply map_id.
Qed.

(** C5.  The right-sizing view keeps exactly the rows with
    [AvgDurationMs < 600] and [MemoryMB > 1024], in table order, each with
    [EstimatedSavings = CostUSD * 0.30].  A row with duration 500, memory
    2048 and cost 100 is shown with savings 30.0; a row with duration 700
    is not shown. *)
Theorem right_sizing_selects_and_annotates :
  forall df : list FunctionRecord,
    map sized_row (right_sizing df)
      = filter (fun r => (AvgDurationMs r <? 600) && (1024 <? MemoryMB r)) df
    /\ (forall r, In r (map sized_row (right_sizing df)) <->
                  In r df /\ (AvgDurationMs r <? 600) = true
                          /\ (1024 <? MemoryMB r) = true)
    /\ (forall s, In s (right_sizing df) ->
                  EstimatedSavings s = CostUSD (sized_row s) * 0.30)
    /\ (forall r, In r df -> AvgDurationMs r = 500 -> MemoryMB r = 2048 ->
                  CostUSD r = 100 -> In (mkSized r 30) (right_sizing df))
    /\ (forall r, AvgDurationMs r = 700 ->
                  ~ In r (map sized_row (right_sizing df))).
Proof.
  intros df.
  assert (Hiff : forall r, In r (map sized_row (right_sizing df)) <->
                  In r df /\ (AvgDurationMs r <? 600) = true
                          /\ (1024 <? MemoryMB r) = true).
  { intros r. rewrite right_sizing_rows, filter_In.
    unfold right_sizing_filter. rewrite andb_true_iff. tauto. }
  split; [apply right_sizing_rows |].
  split; [exact Hiff |].
  split; [| split].
  - intros s Hs. unfold right_sizing in Hs. apply in_map_iff in Hs.
    destruct Hs as [r [<- _]]. reflexivity.
  - intros r Hin Ha Hm Hc. unfold right_sizing. apply in_map_iff.
    exists r. split.
    + rewrite Hc. reflexivity.
    + apply filter_In. split; [exact Hin |].
      unfold right_sizing_filter. rewrite Ha, Hm. reflexivity.
  - intros r Ha Hin. apply Hiff in Hin. destruct Hin as [_ [Hlt _]].
    rewrite Ha in Hlt. discriminate Hlt.
Qed.

(** C5 on the sample rows: [row_thumb] (500 ms, 2048 MB, cost 100) is shown
    with savings 30.0, [row_batch] (700 ms) is not. *)
Lemma right_sizing_example :
  In (mkSized row_thumb 30) (right_sizing mixed_rows)
  /\ EstimatedSavings (mkSized row_thumb 30) = CostUSD row_thumb * 0.30
  /\ ~ In row_batch (map sized_row (right_sizing mixed_rows))
  /\ map sized_row (right_sizing mixed_rows) = [row_thumb].
Proof.
  destruct (right_sizing_selects_and_annotates mixed_rows)
    as [Hrows [_ [Hsave [Hin Hout]]]].
  split; [apply (Hin row_thumb); [left; reflexivity | reflexivity ..] |].
  split; [reflexivity |].
  split; [apply (Hout row_batch); reflexivity |].
  rewrite Hrows. reflexivity.
Defined.

(* ================================================================== *)
(** * View 3: provisioned concurrency *)
(* ================================================================== *)

Lemma pc_rows (df : list FunctionRecord) :
  map advised_row (pc df) = filter pc_filter df.
Proof.
  unfold pc. rewrite map_map. simpl. apply map_id.
Qed.

(** C6.  The provisioned-concurrency view keeps exactly the rows with
    [ProvisionedConcurrency > 0], in table order, and labels a row
    "reduce/remove" when [ColdStartRate < 10] and "keep" otherwise.  With
    provisioned concurrency 5, a cold-start rate of 5 gives "reduce/remove"
    and a rate of 15 gives "keep". *)
Theorem pc_selects_and_recommends :
  forall df : list FunctionRecord,
    map advised_row (pc df)
      = filter (fun r => 0 <? ProvisionedConcurrency r) df
    /\ (forall r, In r (map advised_row (pc df)) <->
                  In r df /\ (0 <? ProvisionedConcurrency r) = true)
    /\ (forall a, In a (pc df) ->
          ((ColdStartRate (advised_row a) <? 10) = true ->
             Recommendation a = ReduceRemovePC)
          /\ ((ColdStartRate (advised_row a) <? 10) = false ->
             Recommendation a = KeepPC))
    /\ (forall r, In r df -> ProvisionedConcurrency r = 5 ->
          (ColdStartRate r = 5 -> In (mkAdvised r ReduceRemovePC) (pc df))
          /\ (ColdStartRate r = 15 -> In (mkAdvised r KeepPC) (pc df)))
    /\ recommendation_label ReduceRemovePC = "❌ Reduce / Remove PC"%string
    /\ recommendation_label KeepPC = "✔️ Keep PC"%string.
Proof.
  intros df.
  split; [apply pc_rows |].
  split.
  { intros r. rewrite pc_rows, filter_In. unfold pc_filter. tauto. }
  split.
  { intros a Ha. unfold pc in Ha. apply in_map_iff in Ha.
    destruct Ha as [r [<- _]]. simpl. unfold recommend.
    destruct (ColdStartRate r <? 10); split; intros H;
      try reflexivity; discriminate H. }
  split; [| split; reflexivity].
  intros r Hin Hp.
  assert (Hf : In r (filter pc_filter df)).
  { apply filter_In. split; [exact Hin |]. unfold pc_filter. rewrite Hp. reflexivity. }
  split; intros Hc; unfold pc; apply in_map_iff; exists r;
    (split; [unfold recommend; rewrite Hc; reflexivity | exact Hf]).
Qed.

(** C6 on the sample rows: with provisioned concurrency 5, [row_thumb]
    (cold-start rate 5) is told to reduce, [row_probe] (rate 15) to keep. *)
Lemma pc_example :
  In (mkAdvised row_thumb ReduceRemovePC) (pc mixed_rows)
  /\ In (mkAdvised row_probe KeepPC) (pc mixed_rows)
  /\ map advised_row (pc mixed_rows) = [row_thumb; row_batch; row_probe]
  /\ map Recommendation (pc mixed_rows) = [ReduceRemovePC; KeepPC; KeepPC].
Proof.
  destruct (pc_selects_and_recommends mixed_rows) as [Hrows [_ [_ [Hin _]]]].
  split.
  { apply (Hin row_thumb); [left; reflexivity | reflexivity | reflexivity]. }
  split.
  { apply (Hin row_probe); [do 4 right; left; reflexivity | reflexivity | reflexivity]. }
  split; [rewrite Hrows; reflexivity | reflexivity].
Defined.

(* ================================================================== *)
(** * View 5: forecasting *)
(* ================================================================== *)

Lemma canonical_set_ForecastedCost (r : FunctionRecord) (x : float) :
  canonical (set_ForecastedCost r x) = canonical r.
Proof. reflexivity. Qed.

Lemma canonical_forecast (df : list FunctionRecord) :
  map canonical (forecast df) = map canonical df.
Proof.
  unfold forecast. rewrite map_map. apply map_ext. intros r.
  apply canonical_set_ForecastedCost.
Qed.


Lemma wrap64_range (z : Z) : (- 2 ^ 63 <= wrap64 z < 2 ^ 63)%Z.
Proof.
  unfold wrap64.
  pose proof (Z.mod_pos_bound (z + 2 ^ 63) (2 ^ 64) ltac:(lia)). lia.
Qed.




(* ================================================================== *)
(** * View 1: the ranked table *)
(* ================================================================== *)

Lemma length_np_cumsum_from (xs : list float) : forall acc,
  length (np_cumsum_from acc xs) = length xs.
Proof.
  induction xs as [|x xs IH]; intros acc; simpl; [reflexivity |].
  rewrite IH. reflexivity.
Qed.

Lemma length_np_cumsum (xs : list float) : length (np_cumsum xs) = length xs.
Proof.
  destruct xs as [|x xs]; simpl; [reflexivity |].
  rewrite length_np_cumsum_from. reflexivity.
Qed.

Lemma length_restore_mask (xs : list float) : forall cs,
  length cs = length xs -> length (restore_mask xs cs) = length xs.
Proof.
  induction xs as [|x xs IH]; intros [|c cs] H; simpl in *;
    try reflexivity; try discriminate.
  rewrite IH; [reflexivity | congruence].
Qed.

Lemma length_cumsum (xs : list float) : length (cumsum xs) = length xs.
Proof.
  unfold cumsum. apply length_restore_mask.
  rewrite length_np_cumsum. apply length_map.
Qed.

Lemma zip_ranked_rows (rs : list FunctionRecord) : forall ps cs,
  length ps = length rs -> length cs = length rs ->
  map ranked_row (zip_ranked rs ps cs) = rs.
Proof.
  induction rs as [|r rs IH]; intros [|p ps] [|c cs] Hp Hc; simpl in *;
    try reflexivity; try discriminate.
  rewrite IH; [reflexivity | congruence | congruence].
Qed.

Lemma zip_ranked_percent (rs : list FunctionRecord) : forall ps cs,
  length ps = length rs -> length cs = length rs ->
  map CostPercent (zip_ranked rs ps cs) = ps.
Proof.
  induction rs as [|r rs IH]; intros [|p ps] [|c cs] Hp Hc; simpl in *;
    try reflexivity; try discriminate.
  rewrite IH; [reflexivity | congruence | congruence].
Qed.

Lemma zip_ranked_cumulative (rs : list FunctionRecord) : forall ps cs,
  length ps = length rs -> length cs = length rs ->
  map CumulativeCost (zip_ranked rs ps cs) = cs.
Proof.
  induction rs as [|r rs IH]; intros [|p ps] [|c cs] Hp Hc; simpl in *;
    try reflexivity; try discriminate.
  rewrite IH; [reflexivity | congruence | congruence].
Qed.

Lemma df_sorted_rows (df : list FunctionRecord) :
  map ranked_row (df_sorted df) = sort_values_desc CostUSD df.
Proof.
  unfold df_sorted. apply zip_ranked_rows.
  - unfold cost_percent. apply length_map.
  - rewrite length_cumsum. unfold cost_percent. apply length_map.
Qed.



(** Row by row: the percentage is computed from the row's own cost, and a
    missing percentage leaves the cumulative entry missing. *)
Lemma zip_ranked_entry (f : FunctionRecord -> float)
    (rs : list FunctionRecord) : forall cs a,
  In a (zip_ranked rs (map f rs) (restore_mask (map f rs) cs)) ->
  In (ranked_row a) rs
  /\ CostPercent a = f (ranked_row a)
  /\ (is_nan (CostPercent a) = true -> CumulativeCost a = nan).
Proof.
  induction rs as [|r rs IH]; intros [|c cs] a Ha; simpl in Ha;
    try contradiction.
  destruct Ha as [<- | Ha].
  - simpl. split; [left; reflexivity |]. split; [reflexivity |].
    intros H. rewrite H. reflexivity.
  - destruct (IH cs a Ha) as [H1 H2]. split; [right; exact H1 | exact H2].
Qed.

(** Sorting permutes the rows. *)
Section SortingFacts.

Context {A : Type}.
Variable key : A -> float.

Lemma insert_desc_perm (x : A) (l : list A) :
  Permutation (insert_desc key x l) (x :: l).
Proof.
  induction l as [|y l IH]; simpl; [apply Permutation_refl |].
  destruct (key y <=? key x); [apply Permutation_refl |].
  apply Permutation_trans with (y :: x :: l).
  - apply perm_skip. exact IH.
  - apply perm_swap.
Qed.

Lemma isort_desc_perm (l : list A) : Permutation (isort_desc key l) l.
Proof.
  induction l as [|x l IH]; simpl; [apply perm_nil |].
  apply Permutation_trans with (x :: isort_desc key l).
  - apply insert_desc_perm.
  - apply perm_skip. exact IH.
Qed.

Lemma partition_perm (p : A -> bool) (l : list A) :
  Permutation (filter (fun x => negb (p x)) l ++ filter p l) l.
Proof.
  induction l as [|x l IH]; simpl; [apply perm_nil |].
  destruct (p x); simpl.
  - apply Permutation_sym, Permutation_cons_app, Permutation_sym. exact IH.
  - apply perm_skip. exact IH.
Qed.

Lemma sort_values_desc_perm (l : list A) :
  Permutation (sort_values_desc key l) l.
Proof.
  unfold sort_values_desc.
  apply Permutation_trans
    with (filter (fun r => negb (is_nan (key r))) l
          ++ filter (fun r => is_nan (key r)) l).
  - apply Permutation_app_tail. apply isort_desc_perm.
  - apply (partition_perm (fun r => is_nan (key r))).
Qed.

End SortingFacts.

Lemma df_sorted_entry (df : list FunctionRecord) (a : Ranked) :
  In a (df_sorted df) ->
  In (ranked_row a) df
  /\ CostPercent a = CostUSD (ranked_row a) / total_cost df * 100
  /\ (is_nan (CostPercent a) = true -> CumulativeCost a = nan).
Proof.
  intros Ha. unfold df_sorted, cost_percent, cumsum in Ha.
  apply zip_ranked_entry in Ha. destruct Ha as [H1 H2].
  split; [| exact H2].
  apply (Permutation_in _ (sort_values_desc_perm CostUSD df)). exact H1.
Qed.

(* ================================================================== *)
(** * Missing values and the filters *)
(* ================================================================== *)

(** C7.  In each filtering view a row with a missing value in a field the
    filter compares is not shown: a missing [CostUSD] gives a missing
    [CumulativeCost], which fails [<= 80] (cost concentration); a missing
    [AvgDurationMs] or [MemoryMB] fails right-sizing and containerization;
    a missing [ProvisionedConcurrency] fails the provisioned-concurrency
    filter; a missing [InvocationsPerMonth] or [CostUSD] fails low-value
    detection. *)
Theorem missing_value_excludes_row :
  forall (df : list FunctionRecord) (r : FunctionRecord),
    (forall a, is_missing (CumulativeCost a) = true -> ~ In a (top_80 df))
    /\ (forall a, In a (df_sorted df) ->
                  is_missing (CostUSD (ranked_row a)) = true ->
                  is_missing (CumulativeCost a) = true)
    /\ (is_missing (CostUSD r) = true -> ~ In r (map ranked_row (top_80 df)))
    /\ (is_missing (AvgDurationMs r) = true \/ is_missing (MemoryMB r) = true ->
        ~ In r (map sized_row (right_sizing df)))
    /\ (is_missing (ProvisionedConcurrency r) = true ->
        ~ In r (map advised_row (pc df)))
    /\ (is_missing (InvocationsPerMonth r) = true
        \/ is_missing (CostUSD r) = true ->
        ~ In r (low_value df))
    /\ (is_missing (AvgDurationMs r) = true \/ is_missing (MemoryMB r) = true ->
        ~ In r (containers df)).
Proof.
  intros df r. unfold is_missing.
  assert (Hcum : forall a, In a (df_sorted df) ->
                 is_nan (CostUSD (ranked_row a)) = true ->
                 is_nan (CumulativeCost a) = true).
  { intros a Ha Hc. destruct (df_sorted_entry df a Ha) as [_ [Hp Hn]].
    rewrite Hn; [reflexivity |].
    rewrite Hp. apply F64.mul_nan_l, F64.div_nan_l. exact Hc. }
  assert (Htop : forall a, is_nan (CumulativeCost a) = true -> ~ In a (top_80 df)).
  { intros a Hn Hin. unfold top_80 in Hin. apply filter_In in Hin.
    destruct Hin as [_ Hle]. rewrite (F64.leb_nan_l _ _ Hn) in Hle.
    discriminate Hle. }
  split; [exact Htop |]. split; [exact Hcum |].
  split; [| split; [| split; [| split]]].
  - intros Hc Hin. apply in_map_iff in Hin. destruct Hin as [a [<- Ha]].
    apply (Htop a); [| exact Ha]. apply Hcum; [| exact Hc].
    unfold top_80 in Ha. apply filter_In in Ha. apply Ha.
  - intros H Hin. rewrite right_sizing_rows in Hin. apply filter_In in Hin.
    destruct Hin as [_ Hf]. unfold right_sizing_filter in Hf.
    apply andb_prop in Hf. destruct Hf as [H1 H2]. destruct H as [H | H].
    + rewrite (F64.ltb_nan_l _ _ H) in H1. discriminate H1.
    + rewrite (F64.ltb_nan_r _ _ H) in H2. discriminate H2.
  - intros H Hin. rewrite pc_rows in Hin. apply filter_In in Hin.
    destruct Hin as [_ Hf]. unfold pc_filter in Hf.
    rewrite (F64.ltb_nan_r _ _ H) in Hf. discriminate Hf.
  - intros H Hin. unfold low_value in Hin. apply filter_In in Hin.
    destruct Hin as [_ Hf]. unfold low_value_filter in Hf.
    apply andb_prop in Hf. destruct Hf as [H1 H2]. destruct H as [H | H].
    + rewrite (F64.ltb_nan_l _ _ H) in H1. discriminate H1.
    + rewrite (F64.ltb_nan_r _ _ H) in H2. discriminate H2.
  - intros H Hin. unfold containers in Hin. apply filter_In in Hin.
    destruct Hin as [_ Hf]. unfold containers_filter in Hf.
    apply andb_prop in Hf. destruct Hf as [H1 H2]. destruct H as [H | H].
    + rewrite (F64.ltb_nan_r _ _ H) in H1. discriminate H1.
    + rewrite (F64.ltb_nan_r _ _ H) in H2. discriminate H2.
Qed.

(** C7 on the sample rows: [row_gap], all of whose numbers are missing, is
    in the table and in no filtered view. *)
Lemma missing_value_example :
  In row_gap mixed_rows
  /\ ~ In row_gap (map ranked_row (top_80 mixed_rows))
  /\ ~ In row_gap (map sized_row (right_sizing mixed_rows))
  /\ ~ In row_gap (map advised_row (pc mixed_rows))
  /\ ~ In row_gap (low_value mixed_rows)
  /\ ~ In row_gap (containers mixed_rows).
Proof.
  destruct (missing_value_excludes_row mixed_rows row_gap)
    as [_ [_ [H1 [H2 [H3 [H4 H5]]]]]].
  split; [do 3 right; left; reflexivity |].
  split; [apply H1; reflexivity |].
  split; [apply H2; left; reflexivity |].
  split; [apply H3; reflexivity |].
  split; [apply H4; left; reflexivity | apply H5; left; reflexivity].
Defined.

(* ================================================================== *)
(** * View 1 when the total cost is zero *)
(* ================================================================== *)

Lemma fold_add_zero (xs : list float) : forall acc,
  (acc =? 0) = true ->
  (forall x, In x xs -> (x =? 0) = true) ->
  (fold_left PrimFloat.add xs acc =? 0) = true.
Proof.
  induction xs as [|x xs IH]; intros acc Hacc Hxs; simpl; [exact Hacc |].
  apply IH.
  - apply F64.add_zero_zero; [exact Hacc | apply Hxs; left; reflexivity].
  - intros y Hy. apply Hxs. right. exact Hy.
Qed.

Lemma sum_zero (xs : list float) :
  (forall x, In x xs -> (x =? 0) = true) -> (sum xs =? 0) = true.
Proof.
  intros H. unfold sum.
  assert (H' : forall y, In y (map nan_to_zero xs) -> (y =? 0) = true).
  { intros y Hy. apply in_map_iff in Hy. destruct Hy as [x [<- Hx]].
    unfold nan_to_zero. destruct (is_nan x); [reflexivity | apply H; exact Hx]. }
  destruct (map nan_to_zero xs) as [|y ys]; simpl; [reflexivity |].
  apply fold_add_zero.
  - apply H'. left. reflexivity.
  - intros z Hz. apply H'. right. exact Hz.
Qed.

(** C10.  When every [CostUSD] is zero the total is zero, the division is
    not guarded and nothing is raised: every [CostPercent] and every
    [CumulativeCost] of the ranked table (which still has one row per row of
    the table) is NaN, and the 80% selection is empty since no value passes
    [<= 80]. *)
Theorem zero_total_gives_empty_top_80 :
  forall df : list FunctionRecord,
    (forall r, In r df -> (CostUSD r =? 0) = true) ->
    (total_cost df =? 0) = true
    /\ length (df_sorted df) = length df
    /\ (forall a, In a (df_sorted df) ->
          is_nan (CostPercent a) = true /\ is_nan (CumulativeCost a) = true
          /\ (CumulativeCost a <=? 80) = false)
    /\ top_80 df = [].
Proof.
  intros df Hz.
  assert (Htot : (total_cost df =? 0) = true).
  { unfold total_cost. apply sum_zero. intros x Hx.
    apply in_map_iff in Hx. destruct Hx as [r [<- Hr]]. apply Hz. exact Hr. }
  assert (Hall : forall a, In a (df_sorted df) ->
            is_nan (CostPercent a) = true /\ is_nan (CumulativeCost a) = true
            /\ (CumulativeCost a <=? 80) = false).
  { intros a Ha. destruct (df_sorted_entry df a Ha) as [Hin [Hp Hn]].
    assert (Hpn : is_nan (CostPercent a) = true).
    { rewrite Hp. apply F64.mul_nan_l, F64.div_zero_zero; [apply Hz; exact Hin | exact Htot]. }
    rewrite (Hn Hpn). repeat split; try reflexivity. exact Hpn. }
  split; [exact Htot |].
  split.
  { rewrite <- (length_map ranked_row), df_sorted_rows.
    apply Permutation_length, sort_values_desc_perm. }
  split; [exact Hall |].
  unfold top_80. apply filter_none. intros a Ha. apply Hall. exact Ha.
Qed.

(** C10 on a table of three zero costs, one of them [-0.0]. *)
Lemma zero_total_example :
  (forall r, In r costs_all_zero -> (CostUSD r =? 0) = true)
  /\ (total_cost costs_all_zero =? 0) = true
  /\ length (df_sorted costs_all_zero) = length costs_all_zero
  /\ (forall a, In a (df_sorted costs_all_zero) ->
        is_nan (CostPercent a) = true /\ is_nan (CumulativeCost a) = true
        /\ (CumulativeCost a <=? 80) = false)
  /\ top_80 costs_all_zero = [].
Proof.
  assert (H : forall r, In r costs_all_zero -> (CostUSD r =? 0) = true).
  { intros r Hr. simpl in Hr.
    destruct Hr as [<- | [<- | [<- | []]]]; reflexivity. }
  split; [exact H |].
  exact (zero_total_gives_empty_top_80 costs_all_zero H).
Defined.

(* ================================================================== *)
(** * Numeric coercion *)
(* ================================================================== *)

Lemma map_nth_comm {A : Type} (f : A -> A) :
  (forall x, f (f x) = f x) ->
  forall (l : list A) (i j : nat),
    map_nth f i (map_nth f j l) = map_nth f j (map_nth f i l).
Proof.
  intros Hf. induction l as [|x l IH]; intros i j; [destruct i, j; reflexivity |].
  destruct i as [|i], j as [|j]; simpl; try reflexivity.
  rewrite IH. reflexivity.
Qed.

Lemma map_nth_idem {A : Type} (f : A -> A) :
  (forall x, f (f x) = f x) ->
  forall (l : list A) (i : nat), map_nth f i (map_nth f i l) = map_nth f i l.
Proof.
  intros Hf. induction l as [|x l IH]; intros i; [destruct i; reflexivity |].
  destruct i as [|i]; simpl; [rewrite Hf | rewrite IH]; reflexivity.
Qed.

Section CoercionFacts.

Variable str_to_float : string -> option float.

Lemma to_numeric_idem (c : cell) :
  to_numeric str_to_float (to_numeric str_to_float c)
  = to_numeric str_to_float c.
Proof.
  destruct c as [s|x|]; simpl; try reflexivity.
  destruct (str_to_float s); reflexivity.
Qed.

Lemma coerce_column_columns (name : string) (df df' : DataFrame) :
  coerce_column str_to_float name df = inr df' -> columns df' = columns df.
Proof.
  unfold coerce_column. destruct (index_of name (columns df)); intros H.
  - injection H as <-. reflexivity.
  - discriminate H.
Qed.

Lemma coerce_column_coerced (name : string) (df df' : DataFrame) :
  coerce_column str_to_float name df = inr df' -> coerced_at str_to_float name df'.
Proof.
  unfold coerced_at, coerce_column.
  destruct (index_of name (columns df)) as [i|] eqn:Hi; intros H;
    [| discriminate H].
  injection H as <-. simpl. rewrite Hi. do 2 f_equal.
  rewrite map_map. apply map_ext. intros row.
  apply map_nth_idem, to_numeric_idem.
Qed.

Lemma coerce_column_keeps (name other : string) (df df' : DataFrame) :
  coerced_at str_to_float name df ->
  coerce_column str_to_float other df = inr df' ->
  coerced_at str_to_float name df'.
Proof.
  destruct df as [cols rows]. unfold coerced_at, coerce_column. simpl.
  destruct (index_of name cols) as [i|] eqn:Hi; intros H;
    [| discriminate H].
  destruct (index_of other cols) as [j|] eqn:Hj; intros H';
    [| discriminate H'].
  injection H' as <-. simpl. rewrite Hi. do 2 f_equal.
  injection H as Hrows.
  rewrite map_map.
  rewrite (map_ext _ (fun row => map_nth (to_numeric str_to_float) j
                                   (map_nth (to_numeric str_to_float) i row))).
  - rewrite <- (map_map (map_nth (to_numeric str_to_float) i)
                        (map_nth (to_numeric str_to_float) j)).
    rewrite Hrows. reflexivity.
  - intros row. apply map_nth_comm, to_numeric_idem.
Qed.

Lemma coerce_columns_keeps (name : string) (names : list string) :
  forall df df',
    coerced_at str_to_float name df ->
    coerce_columns str_to_float names df = inr df' ->
    coerced_at str_to_float name df'.
Proof.
  induction names as [|n names IH]; intros df df' Hc H; simpl in H.
  - injection H as <-. exact Hc.
  - destruct (coerce_column str_to_float n df) as [e|df1] eqn:H1;
      [discriminate H |].
    apply (IH df1 df'); [| exact H].
    apply (coerce_column_keeps name n df df1 Hc H1).
Qed.

Lemma coerce_columns_coerced (names : list string) :
  forall df df',
    coerce_columns str_to_float names df = inr df' ->
    forall n, In n names -> coerced_at str_to_float n df'.
Proof.
  induction names as [|m names IH]; intros df df' H n Hn; [contradiction |].
  simpl in H.
  destruct (coerce_column str_to_float m df) as [e|df1] eqn:H1;
    [discriminate H |].
  destruct Hn as [<- | Hn].
  - apply (coerce_columns_keeps m names df1 df'); [| exact H].
    apply (coerce_column_coerced m df df1 H1).
  - apply (IH df1 df' H n Hn).
Qed.

Lemma coerce_columns_fixed (names : list string) (df : DataFrame) :
  (forall n, In n names -> coerced_at str_to_float n df) ->
  coerce_columns str_to_float names df = inr df.
Proof.
  induction names as [|m names IH]; intros H; simpl; [reflexivity |].
  rewrite (H m (or_introl eq_refl)). apply IH.
  intros n Hn. apply H. right. exact Hn.
Qed.

(** C4.  Coercion is idempotent: on a cell, on each of the eight numeric
    columns, and for the whole loop, coercing what coercion produced
    returns it unchanged.  A number stays as it is; text that is not a
    number, like an absent value, becomes missing. *)
Theorem coercion_idempotent :
  (forall c, to_numeric str_to_float (to_numeric str_to_float c)
             = to_numeric str_to_float c)
  /\ (forall x, to_numeric str_to_float (CNum x) = CNum x)
  /\ (forall s, str_to_float s = None ->
                to_numeric str_to_float (CStr s) = CNum nan)
  /\ (forall name df df',
        In name numeric_columns ->
        coerce_column str_to_float name df = inr df' ->
        coerce_column str_to_float name df' = inr df')
  /\ (forall df df',
        coerce str_to_float df = inr df' ->
        coerce str_to_float df' = inr df').
Proof.
  split; [exact to_numeric_idem |].
  split; [reflexivity |].
  split; [intros s H; simpl; rewrite H; reflexivity |].
  split.
  - intros name df df' _ H. exact (coerce_column_coerced name df df' H).
  - intros df df' H. unfold coerce in *.
    apply coerce_columns_fixed.
    exact (coerce_columns_coerced numeric_columns df df' H).
Qed.

End CoercionFacts.

(** C4 on the sample table, whose duration column arrives as text: ["120"]
    becomes 120, ["fast"] becomes missing, and a second pass changes
    nothing. *)
Lemma coercion_example :
  exists df',
    coerce decimal_to_float well_formed_frame = inr df'
    /\ coerce decimal_to_float df' = inr df'
    /\ map AvgDurationMs (records df') = [120; nan]
    /\ to_numeric decimal_to_float (CStr "fast") = CNum nan.
Proof.
  destruct (coercion_idempotent decimal_to_float) as [_ [_ [Hnan [_ Hloop]]]].
  eexists. split; [reflexivity |].
  split; [apply (Hloop well_formed_frame); reflexivity |].
  split; [reflexivity | apply Hnan; reflexivity].
Defined.

(* ================================================================== *)
(** * Loader and repair *)
(* ================================================================== *)

Lemma split_comma_nonempty (s : string) : split_comma s <> [].
Proof.
  induction s as [|c s IH]; simpl; [discriminate |].
  destruct (Ascii.eqb c ","%char); [discriminate |].
  destruct (split_comma s); discriminate.
Qed.

(** Joining the fields with commas gives the text back. *)
Lemma split_comma_join (s : string) :
  String.concat ","%string (split_comma s) = s.
Proof.
  induction s as [|c s IH]; [reflexivity |].
  simpl split_comma.
  destruct (Ascii.eqb c ","%char) eqn:Hc.
  - apply Ascii.eqb_eq in Hc. subst c.
    pose proof (split_comma_nonempty s) as Hne.
    destruct (split_comma s) as [|h t] eqn:Hs; [contradiction |].
    change (String.concat ","%string (EmptyString :: h :: t))
      with (String ","%char (String.concat ","%string (h :: t))).
    rewrite IH. reflexivity.
  - pose proof (split_comma_nonempty s) as Hne.
    destruct (split_comma s) as [|h t] eqn:Hs; [contradiction |].
    destruct t as [|h' t'].
    + simpl in *. rewrite IH. reflexivity.
    + change (String.concat ","%string (String c h :: h' :: t'))
        with (String c (String.concat ","%string (h :: h' :: t'))).
      rewrite IH. reflexivity.
Qed.

(** No field holds a comma. *)
Lemma split_comma_fields (s : string) :
  forall fld, In fld (split_comma s) -> has_comma fld = false.
Proof.
  induction s as [|c s IH]; intros fld Hin; simpl in Hin.
  - destruct Hin as [<- | []]. reflexivity.
  - destruct (Ascii.eqb c ","%char) eqn:Hc.
    + destruct Hin as [<- | Hin]; [reflexivity | apply IH; exact Hin].
    + destruct (split_comma s) as [|h t].
      * destruct Hin as [<- | []]. simpl. rewrite Hc. reflexivity.
      * destruct Hin as [<- | Hin].
        -- simpl. rewrite Hc. simpl. apply IH. left. reflexivity.
        -- apply IH. right. exact Hin.
Qed.

Lemma max_len_bound (rows : list (list cell)) (r : list cell) :
  In r rows -> (length r <= max_len rows)%nat.
Proof.
  induction rows as [|x rows IH]; intros H; [contradiction |].
  simpl. destruct H as [<- | H]; [lia |].
  specialize (IH H). lia.
Qed.

Lemma length_expand_row (w : nat) (c : cell) :
  (length (split_cell c) <= w)%nat -> length (expand_row w c) = w.
Proof.
  destruct c as [s|x|]; simpl; intros H.
  - rewrite length_app, repeat_length. lia.
  - apply repeat_length.
  - apply repeat_length.
Qed.

Lemma load_of_one_column (f : UploadedFile) (df : DataFrame) (temp0 : list cell) :
  read_csv f = inr df ->
  length (columns df) = 1%nat ->
  read_csv_noheader_0 f = inr temp0 ->
  load f = match str_split_expand temp0 with
           | inl e => inl e
           | inr fr => set_columns fr canonical_columns
           end.
Proof.
  intros H1 Hc H2. unfold load. rewrite H1, Hc, H2. reflexivity.
Qed.

(** C2, as the code has it.  When the first parse has exactly one column
    the loader re-reads the file without a header and splits every string
    of column 0 at each comma, with no limit on the number of fields.  If
    the longest row has exactly ten fields, the result is the table with the
    ten named columns in the stated order, every row ten cells wide (the
    fields, then [None] padding); if it has any other number of fields the
    column assignment raises, and if the column holds no string the [.str]
    accessor raises.  A parse with ten columns does not enter the repair
    branch and is returned as it is. *)
Theorem repair_rebuilds_ten_columns :
  forall (f : UploadedFile) (df : DataFrame) (temp0 : list cell),
    read_csv f = inr df ->
    length (columns df) = 1%nat ->
    read_csv_noheader_0 f = inr temp0 ->
    let w := max_len (map split_cell temp0) in
    repair_taken f = true
    /\ (existsb is_str temp0 = false -> load f = inl AttributeError)
    /\ (existsb is_str temp0 = true -> w <> 10%nat ->
        load f = inl (LengthMismatch w 10))
    /\ (existsb is_str temp0 = true -> w = 10%nat ->
        load f = inr (mkDataFrame canonical_columns
                                  (map (expand_row 10) temp0))
        /\ (forall row, In row (map (expand_row 10) temp0) ->
                        length row = 10%nat)
        /\ (forall s, In (CStr s) temp0 ->
              In (map CStr (split_comma s)
                  ++ repeat CNone (10 - length (split_comma s)))
                 (map (expand_row 10) temp0)
              /\ String.concat ","%string (split_comma s) = s
              /\ forall fld, In fld (split_comma s) -> has_comma fld = false))
    /\ canonical_columns
       = [ "FunctionName"; "Environment"; "InvocationsPerMonth";
           "AvgDurationMs"; "MemoryMB"; "ColdStartRate";
           "ProvisionedConcurrency"; "GBSeconds"; "DataTransferGB";
           "CostUSD" ]%string
    /\ (forall (g : UploadedFile) (dg : DataFrame),
          read_csv g = inr dg -> length (columns dg) = 10%nat ->
          repair_taken g = false /\ load g = inr dg).
Proof.
  intros f df temp0 H1 Hc H2 w.
  pose proof (load_of_one_column f df temp0 H1 Hc H2) as Hload.
  split; [unfold repair_taken; rewrite H1, Hc; reflexivity |].
  split.
  { intros Hs. rewrite Hload. unfold str_split_expand. rewrite Hs. reflexivity. }
  split.
  { intros Hs Hw. rewrite Hload. unfold str_split_expand. rewrite Hs.
    fold w. unfold set_columns.
    destruct (Nat.eqb w (length canonical_columns)) eqn:E; [| reflexivity].
    apply Nat.eqb_eq in E. simpl in E. contradiction. }
  split.
  { intros Hs Hw. split; [| split].
    - rewrite Hload. unfold str_split_expand. rewrite Hs. fold w.
      rewrite Hw. reflexivity.
    - intros row Hrow. apply in_map_iff in Hrow. destruct Hrow as [c [<- Hin]].
      apply length_expand_row. rewrite <- Hw. unfold w.
      apply max_len_bound. apply in_map. exact Hin.
    - intros s Hin.
      split; [| split; [apply split_comma_join | apply split_comma_fields]].
      apply in_map_iff. exists (CStr s). split; [| exact Hin].
      simpl. rewrite length_map. reflexivity. }
  split; [reflexivity |].
  intros g dg Hg Hlen. unfold repair_taken, load. rewrite Hg, Hlen.
  split; reflexivity.
Qed.

(** C2 on a file of quoted lines with ten fields each: the header line
    comes back as the first data row. *)
Lemma repair_rebuilds_ten_columns_example :
  let f := quoted_lines_file in
  let temp0 := [CStr quoted_header;
                CStr "resize,prod,1000,120,512,2,0,61.4,1,30"] in
  repair_taken f = true
  /\ load f = inr (mkDataFrame canonical_columns (map (expand_row 10) temp0))
  /\ map (expand_row 10) temp0
     = [ map CStr canonical_columns;
         map CStr [ "resize"; "prod"; "1000"; "120"; "512"; "2"; "0";
                    "61.4"; "1"; "30" ]%string ].
Proof.
  pose proof (repair_rebuilds_ten_columns quoted_lines_file
                (mkDataFrame [quoted_header]
                   [[CStr "resize,prod,1000,120,512,2,0,61.4,1,30"]])
                [CStr quoted_header;
                 CStr "resize,prod,1000,120,512,2,0,61.4,1,30"]
                eq_refl eq_refl eq_refl) as H.
  cbv zeta in H. destruct H as [Ht [_ [_ [H10 _]]]].
  destruct (H10 eq_refl eq_refl) as [Hl _].
  split; [exact Ht |]. split; [exact Hl | reflexivity].
Defined.

(** C2, where the stated property fails: a file whose quoted lines hold
    eleven fields, or one.  The first parse has exactly one column, the
    split is not cut at ten fields, and the load ends in the
    [Length mismatch] the column assignment raises. *)
Lemma repair_refuses_other_widths :
  (exists df, read_csv eleven_fields_file = inr df
              /\ length (columns df) = 1%nat)
  /\ load eleven_fields_file = inl (LengthMismatch 11 10)
  /\ (exists df, read_csv three_words_file = inr df
                 /\ length (columns df) = 1%nat)
  /\ load three_words_file = inl (LengthMismatch 1 10).
Proof.
  split; [eexists; split; reflexivity |].
  split; [reflexivity |].
  split; [eexists; split; reflexivity | reflexivity].
Qed.

(* ================================================================== *)
(** * The pipeline and its failures *)
(* ================================================================== *)

Section PipelineFacts.

Variable str_to_float : string -> option float.

Lemma coerce_columns_inv (names : list string) : forall df df',
  coerce_columns str_to_float names df = inr df' ->
  columns df' = columns df
  /\ (forall n, In n names -> has_column n df = true).
Proof.
  induction names as [|m names IH]; intros df df' H; simpl in H.
  - injection H as <-. split; [reflexivity | intros n []].
  - destruct (coerce_column str_to_float m df) as [e1|df1] eqn:Hm;
      [discriminate H |].
    pose proof (coerce_column_columns str_to_float m df df1 Hm) as Hc1.
    destruct (IH df1 df' H) as [Hc Hall].
    split; [congruence |].
    intros n [<- | Hn].
    + unfold coerce_column in Hm. unfold has_column.
      destruct (index_of m (columns df)); [reflexivity | discriminate Hm].
    + specialize (Hall n Hn). unfold has_column in *.
      rewrite <- Hc1. exact Hall.
Qed.

Lemma coerce_columns_ok (names : list string) : forall df,
  (forall n, In n names -> has_column n df = true) ->
  exists df', coerce_columns str_to_float names df = inr df'.
Proof.
  induction names as [|m names IH]; intros df H; simpl.
  - exists df. reflexivity.
  - assert (Hm : has_column m df = true) by (apply H; left; reflexivity).
    unfold has_column in Hm. unfold coerce_column at 1.
    destruct (index_of m (columns df)) as [i|] eqn:Hi; [| discriminate Hm].
    apply IH. intros n Hn. unfold has_column. simpl.
    exact (H n (or_intror Hn)).
Qed.

Lemma coerce_columns_error (names : list string) : forall df e,
  coerce_columns str_to_float names df = inl e ->
  exists n, In n names /\ e = KeyError n.
Proof.
  induction names as [|m names IH]; intros df e H; simpl in H;
    [discriminate H |].
  destruct (coerce_column str_to_float m df) as [e1|df1] eqn:Hm.
  - injection H as <-. unfold coerce_column in Hm.
    destruct (index_of m (columns df)) eqn:Hi; [discriminate Hm |].
    injection Hm as <-. exists m. split; [left |]; reflexivity.
  - destruct (IH df1 e H) as [n [Hn He]].
    exists n. split; [right; exact Hn | exact He].
Qed.

Lemma to_numeric_total (c : cell) :
  exists x, to_numeric str_to_float c = CNum x.
Proof.
  destruct c as [s|x|]; simpl; eauto.
  destruct (str_to_float s); eauto.
Qed.

End PipelineFacts.

(** What the repair branch returns. *)
Lemma repair_result (temp0 : list cell) :
  match str_split_expand temp0 with
  | inl e => inl e
  | inr fr => set_columns fr canonical_columns
  end
  = if existsb is_str temp0 then
      if Nat.eqb (max_len (map split_cell temp0)) 10
      then inr (mkDataFrame canonical_columns
                  (map (expand_row (max_len (map split_cell temp0))) temp0))
      else inl (LengthMismatch (max_len (map split_cell temp0)) 10)
    else inl AttributeError.
Proof.
  unfold str_split_expand. destruct (existsb is_str temp0); reflexivity.
Qed.

(** What makes the guarded block raise. *)
Lemma load_error_iff (f : UploadedFile) (e : exn) :
  load f = inl e <->
  read_csv f = inl e
  \/ exists df, read_csv f = inr df /\ length (columns df) = 1%nat
     /\ (read_csv_noheader_0 f = inl e
         \/ exists temp0, read_csv_noheader_0 f = inr temp0
            /\ ((existsb is_str temp0 = false /\ e = AttributeError)
                \/ (existsb is_str temp0 = true
                    /\ max_len (map split_cell temp0) <> 10%nat
                    /\ e = LengthMismatch
                             (max_len (map split_cell temp0)) 10))).
Proof.
  split.
  - unfold load. destruct (read_csv f) as [e0|df] eqn:H1.
    { intros H. injection H as <-. left. reflexivity. }
    destruct (Nat.eqb (length (columns df)) 1) eqn:Hc; [| discriminate].
    apply Nat.eqb_eq in Hc. intros H. right. exists df.
    split; [reflexivity |]. split; [exact Hc |].
    destruct (read_csv_noheader_0 f) as [e1|temp0] eqn:H2.
    { injection H as <-. left. reflexivity. }
    right. exists temp0. split; [reflexivity |].
    rewrite repair_result in H.
    destruct (existsb is_str temp0).
    + right. split; [reflexivity |].
      destruct (Nat.eqb (max_len (map split_cell temp0)) 10) eqn:Hw;
        [discriminate H |].
      apply Nat.eqb_neq in Hw. injection H as <-. split; [exact Hw | reflexivity].
    + left. injection H as <-. split; reflexivity.
  - intros [H | [df [H1 [Hc [H2 | [temp0 [H2 Hcase]]]]]]].
    + unfold load. rewrite H. reflexivity.
    + unfold load. rewrite H1, Hc, H2. reflexivity.
    + rewrite (load_of_one_column f df temp0 H1 Hc H2), repair_result.
      destruct Hcase as [[Hs ->] | [Hs [Hw ->]]]; rewrite Hs; [reflexivity |].
      apply Nat.eqb_neq in Hw. rewrite Hw. reflexivity.
Qed.

Section PipelineTheorem.

Variable str_to_float : string -> option float.

(** C9, as the code has it.  The pipeline reports a parse failure exactly
    when a statement of the guarded block raises: the first parse, the
    header-less re-parse, the [.str] accessor or the column assignment of
    the repair branch.  It then stops with the exception it caught and
    shows no view.  Once a table is loaded, the dashboard with its six
    views is produced provided the table has the [FunctionName] column and
    the eight numeric columns; a table lacking one of them ends in a
    [KeyError] that nothing catches.  Coercion itself never raises: every
    cell becomes a number, NaN when the text is not a number. *)
Theorem pipeline_failure_modes :
  forall f : UploadedFile,
    (forall e, pipeline str_to_float f = ParseFailure e <-> load f = inl e)
    /\ (forall e, read_csv f = inl e ->
                  pipeline str_to_float f = ParseFailure e)
    /\ (forall e, load f = inl e <->
          read_csv f = inl e
          \/ exists df, read_csv f = inr df /\ length (columns df) = 1%nat
             /\ (read_csv_noheader_0 f = inl e
                 \/ exists temp0, read_csv_noheader_0 f = inr temp0
                    /\ ((existsb is_str temp0 = false /\ e = AttributeError)
                        \/ (existsb is_str temp0 = true
                            /\ max_len (map split_cell temp0) <> 10%nat
                            /\ e = LengthMismatch
                                     (max_len (map split_cell temp0)) 10))))
    /\ (forall df, load f = inr df ->
          (forall n, In n ("FunctionName"%string :: numeric_columns) ->
                     has_column n df = true) ->
          exists df', coerce str_to_float df = inr df'
            /\ pipeline str_to_float f
               = Dashboard (records df')
                           (fst (run script_order (records df')))
            /\ map fst (fst (run script_order (records df')))
               = script_order)
    /\ (forall df n, load f = inr df ->
          In n ("FunctionName"%string :: numeric_columns) ->
          has_column n df = false ->
          exists m, pipeline str_to_float f = Uncaught (KeyError m))
    /\ (forall c, exists x, to_numeric str_to_float c = CNum x)
    /\ (forall s, str_to_float s = None ->
                  to_numeric str_to_float (CStr s) = CNum nan).
Proof.
  intros f.
  split.
  { intros e. unfold pipeline. destruct (load f) as [e0|df].
    - split; intros H; injection H as <-; reflexivity.
    - split; [| discriminate].
      destruct (coerce str_to_float df) as [e1|df']; [discriminate |].
      destruct (has_column "FunctionName" df'); discriminate. }
  split.
  { intros e H. unfold pipeline, load. rewrite H. reflexivity. }
  split; [intros e; apply load_error_iff |].
  split.
  { intros df Hl Hcols.
    destruct (coerce_columns_ok str_to_float numeric_columns df) as [df' Hc].
    { intros n Hn. apply Hcols. right. exact Hn. }
    destruct (coerce_columns_inv str_to_float _ _ _ Hc) as [Hsame _].
    exists df'. split; [exact Hc |].
    unfold pipeline. rewrite Hl. fold (coerce str_to_float df) in Hc.
    rewrite Hc.
    assert (Hfn : has_column "FunctionName" df' = true).
    { unfold has_column. rewrite Hsame. apply (Hcols "FunctionName"%string).
      left. reflexivity. }
    rewrite Hfn. split; reflexivity. }
  split.
  { intros df n Hl Hn Hmiss. unfold pipeline. rewrite Hl.
    destruct (coerce str_to_float df) as [e|df'] eqn:Hc.
    - unfold coerce in Hc.
      destruct (coerce_columns_error str_to_float _ _ _ Hc) as [m [_ ->]].
      exists m. reflexivity.
    - unfold coerce in Hc.
      destruct (coerce_columns_inv str_to_float _ _ _ Hc) as [Hsame Hall].
      destruct Hn as [<- | Hn].
      + unfold has_column in *. rewrite Hsame.
        destruct (index_of "FunctionName" (columns df)); [discriminate Hmiss |].
        exists "FunctionName"%string. reflexivity.
      + rewrite (Hall n Hn) in Hmiss. discriminate Hmiss. }
  split; [apply to_numeric_total |].
  intros s H. simpl. rewrite H. reflexivity.
Qed.

End PipelineTheorem.

(** C9, where the stated equivalence fails: the first parse succeeds on
    both files below, and the pipeline still fails, on the first inside the
    guarded block (the repair meets eleven fields), on the second after it
    (the table has no [InvocationsPerMonth] column and the coercion loop
    raises). *)
Lemma pipeline_fails_after_clean_decode :
  (exists df, read_csv eleven_fields_file = inr df)
  /\ pipeline decimal_to_float eleven_fields_file
     = ParseFailure (LengthMismatch 11 10)
  /\ (exists df, read_csv two_columns_file = inr df)
  /\ pipeline decimal_to_float two_columns_file
     = Uncaught (KeyError "InvocationsPerMonth").
Proof.
  split; [eexists; reflexivity |].
  split; [reflexivity |].
  split; [eexists; reflexivity | reflexivity].
Qed.

(** C9 on sample files: a rejected file stops the pipeline; a well-formed
    one reaches the dashboard, with the text ["fast"] coerced to a missing
    duration. *)
Lemma pipeline_example :
  pipeline decimal_to_float unreadable_file
  = ParseFailure (ParserError "Error tokenizing data")
  /\ exists df',
       coerce decimal_to_float well_formed_frame = inr df'
       /\ pipeline decimal_to_float well_formed_file
          = Dashboard (records df') (fst (run script_order (records df')))
       /\ map AvgDurationMs (records df') = [120; nan]
       /\ map CostUSD (records df') = [30; 50].
Proof.
  destruct (pipeline_failure_modes decimal_to_float unreadable_file)
    as [_ [Hraise _]].
  destruct (pipeline_failure_modes decimal_to_float well_formed_file)
    as [_ [_ [_ [Hok _]]]].
  split; [apply Hraise; reflexivity |].
  destruct (Hok well_formed_frame eq_refl) as [df' [Hc [Hp _]]].
  { intros n Hn. simpl in Hn.
    repeat (destruct Hn as [<- | Hn]; [reflexivity |]). contradiction. }
  exists df'. split; [exact Hc |]. split; [exact Hp |].
  assert (Hdf : df' = mkDataFrame canonical_columns
            [[CStr "resize"; CStr "prod"; CNum 1000; CNum 120; CNum 512;
              CNum 2; CNum 0; CNum 61.4; CNum 1; CNum 30];
             [CStr "ingest"; CStr "prod"; CNum 9000; CNum nan; CNum 1024;
              CNum 1; CNum 2; CNum 2764.8; CNum 4; CNum 50]]).
  { vm_compute in Hc. injection Hc as <-. reflexivity. }
  rewrite Hdf. split; reflexivity.
Defined.

(* ================================================================== *)
(** * What the views read and what they leave behind *)
(* ================================================================== *)

Section SortingMap.

Context {A B : Type}.
Variable g : A -> B.
Variable key : A -> float.
Variable key' : B -> float.
Hypothesis key_g : forall x, key' (g x) = key x.

Lemma insert_desc_map (x : A) (l : list A) :
  map g (insert_desc key x l) = insert_desc key' (g x) (map g l).
Proof.
  induction l as [|y l IH]; simpl; [reflexivity |].
  rewrite !key_g. destruct (key y <=? key x); simpl; [reflexivity |].
  rewrite IH. reflexivity.
Qed.

Lemma isort_desc_map (l : list A) :
  map g (isort_desc key l) = isort_desc key' (map g l).
Proof.
  induction l as [|x l IH]; simpl; [reflexivity |].
  rewrite insert_desc_map, IH. reflexivity.
Qed.

Lemma filter_key_map (p : float -> bool) (l : list A) :
  map g (filter (fun r => p (key r)) l)
  = filter (fun r => p (key' r)) (map g l).
Proof.
  induction l as [|x l IH]; simpl; [reflexivity |].
  rewrite key_g. destruct (p (key x)); simpl; rewrite IH; reflexivity.
Qed.

Lemma sort_values_desc_map (l : list A) :
  map g (sort_values_desc key l) = sort_values_desc key' (map g l).
Proof.
  unfold sort_values_desc. rewrite map_app, isort_desc_map.
  rewrite (filter_key_map (fun x => negb (is_nan x))).
  rewrite (filter_key_map is_nan). reflexivity.
Qed.

End SortingMap.

Lemma map_CostUSD_canonical (df : list FunctionRecord) :
  map CostUSD (map canonical df) = map CostUSD df.
Proof. rewrite map_map. reflexivity. Qed.

Lemma total_cost_canonical (df : list FunctionRecord) :
  total_cost (map canonical df) = total_cost df.
Proof. unfold total_cost. rewrite map_CostUSD_canonical. reflexivity. Qed.

Lemma zip_ranked_canonical (rs : list FunctionRecord) : forall ps cs,
  zip_ranked (map canonical rs) ps cs
  = map canonical_ranked (zip_ranked rs ps cs).
Proof.
  induction rs as [|r rs IH]; intros [|p ps] [|c cs]; simpl; try reflexivity.
  rewrite IH. reflexivity.
Qed.

Lemma df_sorted_canonical (df : list FunctionRecord) :
  df_sorted (map canonical df) = map canonical_ranked (df_sorted df).
Proof.
  unfold df_sorted.
  rewrite <- (sort_values_desc_map canonical CostUSD CostUSD (fun _ => eq_refl)).
  rewrite zip_ranked_canonical.
  unfold cost_percent. rewrite total_cost_canonical, map_map. reflexivity.
Qed.

Lemma top_80_canonical (df : list FunctionRecord) :
  top_80 (map canonical df) = map canonical_ranked (top_80 df).
Proof.
  unfold top_80. rewrite df_sorted_canonical.
  symmetry. apply (map_filter_comm canonical_ranked (fun a => CumulativeCost a <=? 80)).
Qed.

Lemma filter_canonical (p : FunctionRecord -> bool) (df : list FunctionRecord) :
  (forall r, p (canonical r) = p r) ->
  filter p (map canonical df) = map canonical (filter p df).
Proof.
  intros Hp. rewrite <- map_filter_comm.
  f_equal. apply filter_ext_in_eq. intros r _. apply Hp.
Qed.

Lemma right_sizing_canonical (df : list FunctionRecord) :
  right_sizing (map canonical df) = map canonical_sized (right_sizing df).
Proof.
  unfold right_sizing.
  rewrite (filter_canonical right_sizing_filter) by reflexivity.
  rewrite !map_map. reflexivity.
Qed.

Lemma pc_canonical (df : list FunctionRecord) :
  pc (map canonical df) = map canonical_advised (pc df).
Proof.
  unfold pc. rewrite (filter_canonical pc_filter) by reflexivity.
  rewrite !map_map. reflexivity.
Qed.

Lemma low_value_canonical (df : list FunctionRecord) :
  low_value (map canonical df) = map canonical (low_value df).
Proof.
  unfold low_value.
  assert (H : forall r, low_value_filter (map canonical df) r = low_value_filter df r).
  { intros r. unfold low_value_filter, inv_threshold.
    rewrite map_CostUSD_canonical, map_map. reflexivity. }
  rewrite (filter_ext _ _ H).
  apply filter_canonical. reflexivity.
Qed.

Lemma containers_canonical (df : list FunctionRecord) :
  containers (map canonical df) = map canonical (containers df).
Proof. unfold containers. apply filter_canonical. reflexivity. Qed.

Lemma forecast_canonical (df : list FunctionRecord) :
  forecast (map canonical df) = forecast df.
Proof. unfold forecast. rewrite map_map. reflexivity. Qed.

(** A view computes from the canonical columns alone. *)
Lemma step_canonical (v : view_id) (df : list FunctionRecord) :
  own_columns (fst (step v df)) = fst (step v (map canonical df)).
Proof.
  destruct v; simpl.
  - rewrite top_80_canonical. reflexivity.
  - rewrite right_sizing_canonical. reflexivity.
  - rewrite pc_canonical. reflexivity.
  - rewrite low_value_canonical. reflexivity.
  - rewrite forecast_canonical. reflexivity.
  - rewrite containers_canonical. reflexivity.
Qed.

Lemma step_frame (v : view_id) (df : list FunctionRecord) :
  map canonical (snd (step v df)) = map canonical df.
Proof.
  destruct v; simpl; try reflexivity. apply canonical_forecast.
Qed.

Lemma selected_own_columns (o : view_output) :
  map canonical (selected (own_columns o)) = map canonical (selected o).
Proof.
  destruct o; simpl; rewrite ?map_map; reflexivity.
Qed.

Lemma run_from_canonical (order : list view_id) :
  forall df0 df : list FunctionRecord,
    map canonical df = map canonical df0 ->
    map canonical (snd (run order df)) = map canonical df0
    /\ forall v o, In (v, o) (fst (run order df)) ->
                   own_columns o = fst (step v (map canonical df0)).
Proof.
  induction order as [|w order IH]; intros df0 df Hdf; simpl.
  - split; [exact Hdf | intros v o []].
  - pose proof (step_canonical w df) as Hw.
    pose proof (step_frame w df) as Hf.
    destruct (step w df) as [ow df1]. simpl in Hw, Hf.
    destruct (IH df0 df1) as [Hend Hall]; [congruence |].
    destruct (run order df1) as [os df2]. simpl in *.
    split; [exact Hend |].
    intros v o [Heq | Hin].
    + injection Heq as <- <-. rewrite Hw, Hdf. reflexivity.
    + apply Hall. exact Hin.
Qed.

(** C8, as the code has it.  Views 1, 2, 3, 4 and 6 leave the table as they
    found it: [CostPercent], [CumulativeCost], [EstimatedSavings] and
    [Recommendation] live in tables of their own.  View 5 assigns
    [ForecastedCost] on the table itself, so the column stays for whatever
    runs afterwards.  In every order of evaluation the ten canonical
    columns of the table are unchanged, and since every view computes from
    those ten columns alone, each view selects the same rows, with the same
    canonical columns and the same derived columns, whatever ran before
    it. *)
Theorem views_preserve_canonical_columns :
  forall (df : list FunctionRecord) (order order' : list view_id),
    (forall v, v <> Forecasting -> snd (step v df) = df)
    /\ snd (step Forecasting df) = forecast df
    /\ map canonical (snd (run order df)) = map canonical df
    /\ map fst (fst (run order df)) = order
    /\ (forall v o, In (v, o) (fst (run order df)) ->
          own_columns o = own_columns (fst (step v df)))
    /\ (forall v o o', In (v, o) (fst (run order df)) ->
          In (v, o') (fst (run order' df)) ->
          own_columns o = own_columns o'
          /\ map canonical (selected o) = map canonical (selected o')).
Proof.
  intros df order order'.
  destruct (run_from_canonical order df df eq_refl) as [Hend Hall].
  destruct (run_from_canonical order' df df eq_refl) as [_ Hall'].
  split; [intros v Hv; destruct v; try reflexivity; contradiction |].
  split; [reflexivity |].
  split; [exact Hend |].
  split.
  { clear. revert df. induction order as [|w order IH]; intros df; simpl;
      [reflexivity |].
    destruct (step w df) as [ow df1]. specialize (IH df1).
    destruct (run order df1) as [os df2]. simpl in *. rewrite IH. reflexivity. }
  split.
  { intros v o Hin. rewrite (Hall v o Hin). symmetry. apply step_canonical. }
  intros v o o' Hin Hin'.
  assert (Heq : own_columns o = own_columns o')
    by (rewrite (Hall v o Hin), (Hall' v o' Hin'); reflexivity).
  split; [exact Heq |].
  rewrite <- (selected_own_columns o), <- (selected_own_columns o'), Heq.
  reflexivity.
Qed.

(** C8, where the stated scoping fails: the forecast column is not
    confined to view 5.  In script order the table ends with the column on
    it and the containerization view shows it, while the same view run
    before the forecast does not. *)
Lemma forecast_column_reaches_containers :
  forallb (fun r => match ForecastedCost r with None => true | Some _ => false end)
          mixed_rows = true
  /\ snd (run script_order mixed_rows) <> mixed_rows
  /\ exists o o',
       In (Containerization, o) (fst (run script_order mixed_rows))
       /\ In (Containerization, o')
             (fst (run [Containerization; Forecasting] mixed_rows))
       /\ map ForecastedCost (selected o') = [None]
       /\ map ForecastedCost (selected o) <> [None]
       /\ o <> o'.
Proof.
  split; [reflexivity |].
  split.
  { intros H. apply (f_equal (map ForecastedCost)) in H.
    vm_compute in H. discriminate H. }
  eexists. eexists.
  split; [simpl; do 5 right; left; reflexivity |].
  split; [simpl; left; reflexivity |].
  split; [reflexivity |].
  split.
  { intros H. vm_compute in H. discriminate H. }
  intros H. apply (f_equal (fun x => map ForecastedCost (selected x))) in H.
  vm_compute in H. discriminate H.
Qed.

(** C8 on the sample rows: the containerization view selects [row_etl]
    whether it runs after the forecast or before it. *)
Lemma views_order_example :
  map canonical (snd (run script_order mixed_rows)) = map canonical mixed_rows
  /\ map canonical (selected (OutContainers (containers (forecast mixed_rows))))
     = map canonical (selected (OutContainers (containers mixed_rows)))
  /\ map canonical (containers mixed_rows) = [row_etl].
Proof.
  destruct (views_preserve_canonical_columns mixed_rows script_order
              [Containerization; Forecasting])
    as [_ [_ [Hframe [_ [_ Hsame]]]]].
  split; [exact Hframe |].
  split; [| reflexivity].
  apply (Hsame Containerization
               (OutContainers (containers (forecast mixed_rows)))
               (OutContainers (containers mixed_rows))).
  - simpl. do 5 right. left. reflexivity.
  - simpl. left. reflexivity.
Defined.

(* ================================================================== *)
(** * View 1: ranking, running sum and the 80% prefix *)
(* ================================================================== *)

(** ** Ordered columns *)

Lemma nondecreasing_cons (x : float) (xs : list float) :
  nondecreasing (x :: xs) = true <->
  nondecreasing xs = true
  /\ forall y, hd_error xs = Some y -> (x <=? y) = true.
Proof.
  destruct xs as [|y ys]; simpl.
  - split; [intros _; split; [reflexivity | discriminate] | reflexivity].
  - rewrite andb_true_iff. split.
    + intros [H1 H2]. split; [exact H2 |]. intros z Hz. injection Hz as <-. exact H1.
    + intros [H1 H2]. split; [apply H2; reflexivity | exact H1].
Qed.

Lemma descending_cons (x : float) (xs : list float) :
  descending (x :: xs) = true <->
  descending xs = true
  /\ forall y, hd_error xs = Some y -> (y <=? x) = true.
Proof.
  destruct xs as [|y ys]; simpl.
  - split; [intros _; split; [reflexivity | discriminate] | reflexivity].
  - rewrite andb_true_iff. split.
    + intros [H1 H2]. split; [exact H2 |]. intros z Hz. injection Hz as <-. exact H1.
    + intros [H1 H2]. split; [apply H2; reflexivity | exact H1].
Qed.

Lemma nondecreasing_head_le (x : float) (xs : list float) :
  nondecreasing (x :: xs) = true ->
  forall y, In y xs -> (x <=? y) = true.
Proof.
  revert x. induction xs as [|z xs IH]; intros x H y Hy; [contradiction |].
  apply nondecreasing_cons in H. destruct H as [Hrest Hhd].
  specialize (Hhd z eq_refl).
  destruct Hy as [<- | Hy]; [exact Hhd |].
  apply (F64.leb_trans x z y); [exact Hhd | apply IH; assumption].
Qed.

Section SortedFacts.

Context {A : Type}.
Variable key : A -> float.

Lemma insert_desc_head (x : A) (l : list A) (z : A) :
  hd_error (insert_desc key x l) = Some z -> z = x \/ hd_error l = Some z.
Proof.
  destruct l as [|y l]; simpl.
  - intros H. injection H as <-. left. reflexivity.
  - destruct (key y <=? key x); simpl; intros H; injection H as <-;
      [left | right]; reflexivity.
Qed.

Lemma insert_desc_sorted (x : A) (l : list A) :
  is_nan (key x) = false ->
  (forall y, In y l -> is_nan (key y) = false) ->
  descending (map key l) = true ->
  descending (map key (insert_desc key x l)) = true.
Proof.
  intros Hx. induction l as [|y l IH]; intros Hl Hs; [reflexivity |].
  simpl insert_desc. destruct (key y <=? key x) eqn:Hyx.
  - change (map key (x :: y :: l)) with (key x :: map key (y :: l)).
    apply descending_cons. split; [exact Hs |].
    intros z Hz. simpl in Hz. injection Hz as <-. exact Hyx.
  - change (map key (y :: insert_desc key x l))
      with (key y :: map key (insert_desc key x l)).
    simpl map in Hs. apply descending_cons in Hs. destruct Hs as [Hs Hhd].
    apply descending_cons. split.
    + apply IH; [| exact Hs]. intros w Hw. apply Hl. right. exact Hw.
    + intros z Hz.
      destruct (insert_desc key x l) as [|w rest] eqn:Hins; [discriminate Hz |].
      simpl in Hz. injection Hz as <-.
      destruct (insert_desc_head x l w) as [-> | Hw];
        [rewrite Hins; reflexivity | |].
      * apply F64.ltb_leb, F64.leb_total; try assumption.
        apply Hl. left. reflexivity.
      * apply Hhd. destruct l as [|w' l']; [discriminate Hw |].
        simpl in *. injection Hw as ->. reflexivity.
Qed.

Lemma isort_desc_sorted (l : list A) :
  (forall y, In y l -> is_nan (key y) = false) ->
  descending (map key (isort_desc key l)) = true.
Proof.
  induction l as [|x l IH]; intros Hl; [reflexivity |].
  simpl. apply insert_desc_sorted.
  - apply Hl. left. reflexivity.
  - intros y Hy. apply Hl. right.
    apply (Permutation_in _ (isort_desc_perm key l)). exact Hy.
  - apply IH. intros y Hy. apply Hl. right. exact Hy.
Qed.

Lemma sort_values_desc_present (l : list A) :
  (forall y, In y l -> is_nan (key y) = false) ->
  sort_values_desc key l = isort_desc key l.
Proof.
  intros Hl. unfold sort_values_desc.
  rewrite (filter_none (fun r => is_nan (key r)) l Hl), app_nil_r.
  f_equal. rewrite <- (filter_ext_in_eq (fun _ => true)).
  - clear. induction l as [|x l IH]; simpl; congruence.
  - intros y Hy. rewrite (Hl y Hy). reflexivity.
Qed.

(** A filter on an ordered key keeps a prefix. *)
Lemma filter_le_prefix (bound : float) (l : list A) :
  is_nan bound = false ->
  (forall a, In a l -> is_nan (key a) = false) ->
  nondecreasing (map key l) = true ->
  let kept := filter (fun a => key a <=? bound) l in
  kept = firstn (length kept) l
  /\ forall a, nth_error l (length kept) = Some a -> (bound <? key a) = true.
Proof.
  intros Hb. induction l as [|a l IH]; intros Hl Hs; simpl.
  - split; [reflexivity |]. intros a Ha. discriminate Ha.
  - simpl map in Hs.
    pose proof (nondecreasing_head_le _ _ Hs) as Hle.
    apply nondecreasing_cons in Hs. destruct Hs as [Hs _].
    destruct (key a <=? bound) eqn:Hab.
    + destruct IH as [IH1 IH2]; [intros b Hbin; apply Hl; right; exact Hbin | exact Hs |].
      simpl. split; [f_equal; exact IH1 | exact IH2].
    + assert (Hnone : filter (fun b => key b <=? bound) l = []).
      { apply filter_none. intros b Hbin.
        destruct (key b <=? bound) eqn:Hbb; [| reflexivity].
        rewrite <- Hab. symmetry.
        apply (F64.leb_trans (key a) (key b) bound); [| exact Hbb].
        apply Hle. apply in_map. exact Hbin. }
      rewrite Hnone. simpl. split; [reflexivity |].
      intros b Hbeq. injection Hbeq as <-.
      apply F64.leb_total; [apply Hl; left; reflexivity | exact Hb | exact Hab].
Qed.

End SortedFacts.

(** ** Running sums of non-negative numbers *)

Lemma np_cumsum_from_nonneg (xs : list float) : forall acc,
  (0 <=? acc) = true ->
  (forall x, In x xs -> (0 <=? x) = true) ->
  nondecreasing (acc :: np_cumsum_from acc xs) = true
  /\ forall c, In c (np_cumsum_from acc xs) -> (0 <=? c) = true.
Proof.
  induction xs as [|x xs IH]; intros acc Hacc Hxs; simpl np_cumsum_from.
  - split; [reflexivity | intros c []].
  - assert (Hx : (0 <=? x) = true) by (apply Hxs; left; reflexivity).
    pose proof (F64.add_nonneg_mono acc x Hacc Hx) as Hstep.
    assert (Hacc' : (0 <=? acc + x) = true)
      by (apply (F64.leb_trans 0 acc (acc + x)); assumption).
    destruct (IH (acc + x) Hacc') as [H1 H2];
      [intros y Hy; apply Hxs; right; exact Hy |].
    split.
    + apply nondecreasing_cons. split; [exact H1 |].
      intros y Hy. simpl in Hy. injection Hy as <-. exact Hstep.
    + intros c [<- | Hc]; [exact Hacc' | apply H2; exact Hc].
Qed.

Lemma np_cumsum_nonneg (xs : list float) :
  (forall x, In x xs -> (0 <=? x) = true) ->
  nondecreasing (np_cumsum xs) = true
  /\ forall c, In c (np_cumsum xs) -> (0 <=? c) = true.
Proof.
  destruct xs as [|x xs]; intros H; simpl np_cumsum.
  - split; [reflexivity | intros c []].
  - assert (Hx : (0 <=? x) = true) by (apply H; left; reflexivity).
    destruct (np_cumsum_from_nonneg xs x Hx) as [H1 H2];
      [intros y Hy; apply H; right; exact Hy |].
    split; [exact H1 |].
    intros c [<- | Hc]; [exact Hx | apply H2; exact Hc].
Qed.

Lemma map_nan_to_zero_present (xs : list float) :
  (forall x, In x xs -> is_nan x = false) -> map nan_to_zero xs = xs.
Proof.
  intros H. rewrite <- (map_id xs) at 2. apply map_ext_in.
  intros x Hx. unfold nan_to_zero. rewrite (H x Hx). reflexivity.
Qed.

Lemma restore_mask_present (xs : list float) : forall cs,
  (forall x, In x xs -> is_nan x = false) ->
  length cs = length xs ->
  restore_mask xs cs = cs.
Proof.
  induction xs as [|x xs IH]; intros [|c cs] H Hlen; simpl in *;
    try reflexivity; try discriminate.
  rewrite (H x (or_introl eq_refl)). f_equal.
  apply IH; [intros y Hy; apply H; right; exact Hy | congruence].
Qed.

Lemma cumsum_present (xs : list float) :
  (forall x, In x xs -> is_nan x = false) -> cumsum xs = np_cumsum xs.
Proof.
  intros H. unfold cumsum. rewrite (map_nan_to_zero_present xs H).
  apply restore_mask_present; [exact H | apply length_np_cumsum].
Qed.

(** ** A positive total *)



(** ** The cost-concentration view *)

Section CostConcentration.

Variable df : list FunctionRecord.

Hypothesis costs_nonneg :
  forall r, In r df ->
    (0 <=? CostUSD r) = true /\ (CostUSD r <? infinity) = true.
Hypothesis some_cost :
  exists r, In r df /\ (0 <? CostUSD r) = true.

Lemma costs_present : forall r, In r df -> is_nan (CostUSD r) = false.
Proof.
  intros r Hr. apply (F64.leb_not_nan 0 (CostUSD r)). apply costs_nonneg. exact Hr.
Qed.






End CostConcentration.

(** ** Sums in any order *)

Lemma eval_sum_nonneg (tr : sum_tree) :
  (forall x, In x (leaves tr) -> (0 <=? x) = true) ->
  (0 <=? eval_sum tr) = true
  /\ ((exists x, In x (leaves tr) /\ (0 <? x) = true) ->
      (0 <? eval_sum tr) = true).
Proof.
  induction tr as [x | l IHl r IHr]; intros H; simpl in *.
  - split; [apply H; left; reflexivity |].
    intros [y [[<- | []] Hy]]. exact Hy.
  - destruct IHl as [Hl Hlpos]; [intros x Hx; apply H, in_or_app; left; exact Hx |].
    destruct IHr as [Hr Hrpos]; [intros x Hx; apply H, in_or_app; right; exact Hx |].
    pose proof (F64.add_nonneg_mono _ _ Hl Hr) as H1.
    pose proof (F64.add_nonneg_mono_r _ _ Hl Hr) as H2.
    split; [apply (F64.leb_trans 0 (eval_sum l)); assumption |].
    intros [x [Hx Hpos]]. apply in_app_or in Hx. destruct Hx as [Hx | Hx].
    + apply (F64.ltb_leb_trans 0 (eval_sum l)); [| exact H1].
      apply Hlpos. exists x. split; assumption.
    + apply (F64.ltb_leb_trans 0 (eval_sum r)); [| exact H2].
      apply Hrpos. exists x. split; assumption.
Qed.

Lemma sum_in_some_order_positive (xs : list float) (t : float) :
  sum_in_some_order xs t ->
  (forall x, In x xs -> (0 <=? x) = true) ->
  (exists x, In x xs /\ (0 <? x) = true) ->
  (0 <? t) = true.
Proof.
  intros [tr [zs [Hperm [Hzs <-]]]] Hnn [x [Hx Hpos]].
  apply eval_sum_nonneg.
  - intros y Hy. apply (Permutation_in _ Hperm) in Hy.
    apply in_app_or in Hy. destruct Hy as [Hy | Hy]; [apply Hnn; exact Hy |].
    destruct (proj1 (F64.eqb_zero_spec y) (Hzs y Hy)) as [sz Hz].
    rewrite FloatAxioms.leb_spec, Hz. reflexivity.
  - exists x. split; [| exact Hpos].
    apply (Permutation_in _ (Permutation_sym Hperm)).
    apply in_or_app. left. exact Hx.
Qed.

Lemma left_tree_spec (xs : list float) : forall acc,
  leaves (left_tree acc xs) = leaves acc ++ xs
  /\ eval_sum (left_tree acc xs) = fold_left PrimFloat.add xs (eval_sum acc).
Proof.
  induction xs as [|x xs IH]; intros acc; simpl.
  - rewrite app_nil_r. split; reflexivity.
  - destruct (IH (Node acc (Leaf x))) as [H1 H2]. rewrite H1, H2. simpl.
    rewrite <- app_assoc. split; reflexivity.
Qed.

Lemma np_sum_in_some_order (xs : list float) :
  xs <> [] -> sum_in_some_order xs (np_sum xs).
Proof.
  destruct xs as [|x rest]; [contradiction |]. intros _.
  exists (left_tree (Leaf x) rest), [].
  destruct (left_tree_spec rest (Leaf x)) as [H1 H2].
  rewrite H1, H2, app_nil_r.
  split; [apply Permutation_refl |]. split; [intros z [] | reflexivity].
Qed.

(** ** The ranked table for a given total and a given order *)

Section RankWith.

Variable df s : list FunctionRecord.
Variable t : float.

Hypothesis costs_nonneg :
  forall r, In r df ->
    (0 <=? CostUSD r) = true /\ (CostUSD r <? infinity) = true.
Hypothesis same_rows : Permutation s df.
Hypothesis total_positive : (0 <? t) = true.

Lemma rank_with_rows : map ranked_row (rank_with t s) = s.
Proof.
  unfold rank_with. apply zip_ranked_rows;
    [| rewrite length_cumsum]; apply length_map.
Qed.

Lemma rank_with_percent :
  map CostPercent (rank_with t s) = map (fun r => CostUSD r / t * 100) s.
Proof.
  unfold rank_with. apply zip_ranked_percent;
    [| rewrite length_cumsum]; apply length_map.
Qed.

Lemma rank_with_cumulative :
  map CumulativeCost (rank_with t s)
  = cumsum (map (fun r => CostUSD r / t * 100) s).
Proof.
  unfold rank_with. apply zip_ranked_cumulative;
    [| rewrite length_cumsum]; apply length_map.
Qed.

Lemma rank_with_percent_nonneg :
  forall p, In p (map (fun r => CostUSD r / t * 100) s) -> (0 <=? p) = true.
Proof.
  intros p Hp. apply in_map_iff in Hp. destruct Hp as [r [<- Hr]].
  destruct (costs_nonneg r (Permutation_in _ same_rows Hr)) as [H0 Hfin].
  apply F64.mul_nonneg; [| reflexivity | reflexivity].
  apply F64.div_nonneg; assumption.
Qed.

Lemma rank_with_running_sum :
  map CumulativeCost (rank_with t s)
  = np_cumsum (map CostPercent (rank_with t s)).
Proof.
  rewrite rank_with_cumulative, rank_with_percent.
  apply cumsum_present. intros p Hp.
  apply (F64.leb_not_nan 0 p). apply rank_with_percent_nonneg. exact Hp.
Qed.

Lemma rank_with_monotone :
  nondecreasing (map CumulativeCost (rank_with t s)) = true
  /\ forall c, In c (map CumulativeCost (rank_with t s)) -> (0 <=? c) = true.
Proof.
  rewrite rank_with_running_sum, rank_with_percent.
  apply np_cumsum_nonneg. exact rank_with_percent_nonneg.
Qed.

End RankWith.

Lemma sort_values_desc_sorted_by_cost (df : list FunctionRecord) :
  (forall r, In r df -> is_nan (CostUSD r) = false) ->
  sorted_by_cost df (sort_values_desc CostUSD df).
Proof.
  intros H. split; [apply sort_values_desc_perm |].
  rewrite (sort_values_desc_present CostUSD df H).
  apply isort_desc_sorted. exact H.
Qed.

Lemma total_cost_in_some_order (df : list FunctionRecord) :
  df <> [] ->
  (forall r, In r df -> is_nan (CostUSD r) = false) ->
  sum_in_some_order (map CostUSD df) (total_cost df).
Proof.
  intros Hne H. unfold total_cost, sum.
  rewrite map_nan_to_zero_present.
  - apply np_sum_in_some_order. destruct df; [contradiction | discriminate].
  - intros x Hx. apply in_map_iff in Hx. destruct Hx as [r [<- Hr]].
    apply H. exact Hr.
Qed.

(** C1, as the code has it.  Let the costs be finite, non-negative and not
    all zero, let [s] be the rows in descending order of [CostUSD] with
    ties placed in any way, and let [t] be the total of the costs added up
    in any order.  Then [t] is positive; the ranked table lists the rows
    in the order [s], each with [CostPercent = CostUSD / t * 100] and
    [CumulativeCost], the running sum of [CostPercent]; [CumulativeCost]
    never decreases down the ranked table; the selection
    [CumulativeCost <= 80] is a prefix of the ranked table, every row in it
    is at or below 80 and the first row after it, if there is one, is above
    80.  The stable sort and the left-to-right sum of [df_sorted] are one
    such order and one such total. *)
Theorem cost_concentration_prefix :
  forall (df s : list FunctionRecord) (t : float),
    (forall r, In r df ->
       (0 <=? CostUSD r) = true /\ (CostUSD r <? infinity) = true) ->
    (exists r, In r df /\ (0 <? CostUSD r) = true) ->
    sorted_by_cost df s ->
    sum_in_some_order (map CostUSD df) t ->
    let ranked := rank_with t s in
    let k := length (select_80 ranked) in
    (0 <? t) = true
    /\ map ranked_row ranked = s
    /\ (forall a, In a ranked ->
          CostPercent a = CostUSD (ranked_row a) / t * 100)
    /\ map CumulativeCost ranked = np_cumsum (map CostPercent ranked)
    /\ nondecreasing (map CumulativeCost ranked) = true
    /\ select_80 ranked = firstn k ranked
    /\ (forall a, In a (select_80 ranked) -> (CumulativeCost a <=? 80) = true)
    /\ (forall a, nth_error ranked k = Some a ->
          (80 <? CumulativeCost a) = true)
    /\ sorted_by_cost df (sort_values_desc CostUSD df)
    /\ sum_in_some_order (map CostUSD df) (total_cost df)
    /\ df_sorted df = rank_with (total_cost df) (sort_values_desc CostUSD df)
    /\ top_80 df = select_80 (df_sorted df).
Proof.
  intros df s t Hnonneg Hsome [Hperm Hdesc] Hsum ranked k.
  assert (Hpresent : forall r, In r df -> is_nan (CostUSD r) = false).
  { intros r Hr. apply (F64.leb_not_nan 0 (CostUSD r)). apply Hnonneg. exact Hr. }
  assert (Ht : (0 <? t) = true).
  { apply (sum_in_some_order_positive (map CostUSD df) t Hsum).
    - intros x Hx. apply in_map_iff in Hx. destruct Hx as [r [<- Hr]].
      apply Hnonneg. exact Hr.
    - destruct Hsome as [r [Hr Hpos]]. exists (CostUSD r).
      split; [apply in_map; exact Hr | exact Hpos]. }
  pose proof (rank_with_monotone df s t Hnonneg Hperm Ht) as [Hmono Hpos].
  split; [exact Ht |].
  split; [apply rank_with_rows |].
  split.
  { intros a Ha. unfold ranked, rank_with, cumsum in Ha.
    apply zip_ranked_entry in Ha. apply Ha. }
  split; [exact (rank_with_running_sum df s t Hnonneg Hperm Ht) |].
  split; [exact Hmono |].
  destruct (filter_le_prefix CumulativeCost 80 ranked eq_refl) as [Hpre Hnext].
  { intros a Ha. apply (F64.leb_not_nan 0 (CumulativeCost a)).
    apply Hpos. apply in_map. exact Ha. }
  { exact Hmono. }
  split; [exact Hpre |].
  split.
  { intros a Ha. unfold select_80 in Ha. apply filter_In in Ha. apply Ha. }
  split; [exact Hnext |].
  split; [apply sort_values_desc_sorted_by_cost; exact Hpresent |].
  split.
  { apply total_cost_in_some_order; [| exact Hpresent].
    destruct Hsome as [r [Hr _]]. intros ->. contradiction. }
  split; reflexivity.
Qed.

Lemma in3 {A : Type} (P : A -> Prop) (a b c : A) :
  P a -> P b -> P c -> forall x, In x [a; b; c] -> P x.
Proof.
  intros Ha Hb Hc x [<- | [<- | [<- | []]]]; assumption.
Qed.

Lemma forall_in (P : FunctionRecord -> Prop) (l : list FunctionRecord) :
  Forall P l -> forall r, In r l -> P r.
Proof. intros H. apply Forall_forall. exact H. Qed.

(** C1 on the example of the specification (costs 50, 30 and 20, total
    100) and on ten functions costing 0.1 each, with the total 1.0 that
    the blocked sum gives (the left-to-right sum gives 0.9999999999999999):
    eight rows are selected. *)
Lemma cost_concentration_example :
  (let ranked := rank_with 100 (sort_values_desc CostUSD costs_50_30_20) in
   map (fun a => CostUSD (ranked_row a)) ranked = [50; 30; 20]
   /\ map CostPercent ranked = [50; 30; 20]
   /\ map CumulativeCost ranked = [50; 80; 100]
   /\ select_80 ranked = firstn 2 ranked)
  /\ (let ranked := rank_with 1 ten_dimes in
      eval_sum (numpy_tree_10 0.1) = 1
      /\ np_sum (map CostUSD ten_dimes) = 0.99999999999999989
      /\ select_80 ranked = firstn 8 ranked
      /\ nondecreasing (map CumulativeCost ranked) = true).
Proof.
  split.
  - assert (H1 : forall r, In r costs_50_30_20 ->
               (0 <=? CostUSD r) = true /\ (CostUSD r <? infinity) = true).
    { apply forall_in. repeat constructor. }
    assert (H2 : exists r, In r costs_50_30_20 /\ (0 <? CostUSD r) = true).
    { eexists. split; [left; reflexivity | reflexivity]. }
    assert (H3 : sorted_by_cost costs_50_30_20
                   (sort_values_desc CostUSD costs_50_30_20)).
    { split; [apply sort_values_desc_perm | reflexivity]. }
    assert (H4 : sum_in_some_order (map CostUSD costs_50_30_20) 100).
    { exists (Node (Leaf 30) (Node (Leaf 50) (Leaf 20))), [].
      split; [apply Permutation_refl |].
      split; [intros z [] | reflexivity]. }
    pose proof (cost_concentration_prefix _ _ _ H1 H2 H3 H4) as H.
    cbv zeta in H. destruct H as [_ [_ [_ [_ [_ [Hp _]]]]]].
    cbv zeta. repeat (split; [reflexivity |]). exact Hp.
  - assert (H1 : forall r, In r ten_dimes ->
               (0 <=? CostUSD r) = true /\ (CostUSD r <? infinity) = true).
    { apply forall_in. repeat constructor. }
    assert (H2 : exists r, In r ten_dimes /\ (0 <? CostUSD r) = true).
    { eexists. split; [left; reflexivity | reflexivity]. }
    assert (H3 : sorted_by_cost ten_dimes ten_dimes).
    { split; [apply Permutation_refl | reflexivity]. }
    assert (H4 : sum_in_some_order (map CostUSD ten_dimes) 1).
    { exists (numpy_tree_10 0.1), [].
      split; [apply Permutation_refl |].
      split; [intros z [] | reflexivity]. }
    pose proof (cost_concentration_prefix _ _ _ H1 H2 H3 H4) as H.
    cbv zeta in H. destruct H as [_ [_ [_ [_ [Hm [Hp _]]]]]].
    cbv zeta. split; [reflexivity |]. split; [reflexivity |].
    split; [exact Hp | exact Hm].
Defined.

(** C1, where the stated property fails for tables with every [CostUSD]
    present.  With credits in the table the running sum goes down; with
    nothing but zeros it is NaN throughout and the first row outside the (empty)
    selection is not above 80; with an infinite cost the first percentage
    is NaN and the selection, the second ranked row alone, is not a prefix.
    In all three tables every [CostUSD] is present. *)
Lemma cumulative_cost_can_decrease :
  forallb (fun r => negb (is_missing (CostUSD r))) costs_with_credits = true
  /\ map CumulativeCost (df_sorted costs_with_credits) = [300; 200; 100]
  /\ nondecreasing (map CumulativeCost (df_sorted costs_with_credits)) = false
  /\ forallb (fun r => negb (is_missing (CostUSD r))) costs_all_zero = true
  /\ nondecreasing (map CumulativeCost (df_sorted costs_all_zero)) = false
  /\ top_80 costs_all_zero = []
  /\ (exists a, nth_error (df_sorted costs_all_zero)
                          (length (top_80 costs_all_zero)) = Some a
                /\ (80 <? CumulativeCost a) = false)
  /\ forallb (fun r => negb (is_missing (CostUSD r))) costs_with_infinity = true
  /\ map CumulativeCost (df_sorted costs_with_infinity) = [nan; 0]
  /\ top_80 costs_with_infinity = skipn 1 (df_sorted costs_with_infinity)
  /\ top_80 costs_with_infinity
     <> firstn (length (top_80 costs_with_infinity))
               (df_sorted costs_with_infinity).
Proof.
  repeat (split; [reflexivity |]).
  split; [eexists; split; reflexivity |].
  repeat (split; [reflexivity |]).
  intros H. apply (f_equal (map CumulativeCost)) in H.
  vm_compute in H. discriminate H.
Qed.

(* ================================================================== *)
(** * Further binary64 facts *)
(* ================================================================== *)

Module F64More.

Lemma SFltb_trans (x y z : spec_float) :
  SFltb x y = true -> SFltb y z = true -> SFltb x z = true.
Proof. destruct x, y, z; intros; F64.sf_order. Qed.

Lemma ltb_trans (x y z : float) :
  (x <? y) = true -> (y <? z) = true -> (x <? z) = true.
Proof. rewrite !FloatAxioms.ltb_spec. apply SFltb_trans. Qed.

Lemma mul_nan_r (x y : float) : is_nan y = true -> is_nan (x * y) = true.
Proof.
  rewrite !F64.is_nan_spec. intros H. rewrite FloatAxioms.mul_spec, H.
  destruct (Prim2SF x); reflexivity.
Qed.

Lemma add_nan_l (x y : float) : is_nan x = true -> is_nan (x + y) = true.
Proof.
  rewrite !F64.is_nan_spec. intros H. rewrite FloatAxioms.add_spec, H.
  reflexivity.
Qed.

Lemma add_nan_r (x y : float) : is_nan y = true -> is_nan (x + y) = true.
Proof.
  rewrite !F64.is_nan_spec. intros H. rewrite FloatAxioms.add_spec, H.
  destruct (Prim2SF x); reflexivity.
Qed.

(** A zero times a finite number is a zero. *)
Lemma mul_zero_finite (x k : float) :
  (x =? 0) = true -> (0 <? k) = true -> (k <? infinity) = true ->
  (x * k =? 0) = true.
Proof.
  rewrite !F64.eqb_zero_spec, !FloatAxioms.ltb_spec, FloatAxioms.mul_spec.
  change (Prim2SF 0) with (S754_zero false).
  change (Prim2SF infinity) with (S754_infinity false).
  intros [s Hx] Hk Hfin. rewrite Hx.
  destruct (Prim2SF k) as [sk|sk| |sk mk ek]; try discriminate Hk.
  - destruct sk; discriminate.
  - simpl. eauto.
Qed.

(** Nothing is below a zero among the zeros and the missing values. *)
Lemma ltb_zero_or_nan (x t : float) :
  (x =? 0) = true \/ is_nan x = true -> (t =? 0) = true -> (x <? t) = false.
Proof.
  intros [Hx | Hx] Ht; [| apply F64.ltb_nan_l; exact Hx].
  apply F64.eqb_zero_spec in Hx. apply F64.eqb_zero_spec in Ht.
  destruct Hx as [sx Hx], Ht as [st Ht].
  rewrite FloatAxioms.ltb_spec, Hx, Ht. reflexivity.
Qed.

End F64More.

(* ================================================================== *)
(** * The comma split *)
(* ================================================================== *)

(** X1.  [s.split(",")] returns one field more than [s] has commas; in
    particular it never returns an empty list, and a text without a comma
    comes back as its only field. *)
Theorem split_comma_count :
  forall s : string,
    length (split_comma s) = S (count_commas s)
    /\ (has_comma s = false -> split_comma s = [s]).
Proof.
  intros s. split.
  - induction s as [|c s IH]; [reflexivity |]. simpl.
    destruct (Ascii.eqb c ","%char); simpl.
    + rewrite IH. reflexivity.
    + destruct (split_comma s) as [|h t]; simpl in *; [discriminate IH | exact IH].
  - induction s as [|c s IH]; [reflexivity |]. simpl.
    destruct (Ascii.eqb c ","%char); simpl; [discriminate |].
    intros H. rewrite (IH H). reflexivity.
Qed.

Lemma split_comma_app (f t : string) :
  has_comma f = false ->
  split_comma (f ++ String ","%char t) = f :: split_comma t.
Proof.
  induction f as [|c f IH]; intros H; simpl.
  - reflexivity.
  - simpl in H. destruct (Ascii.eqb c ","%char); [discriminate H |].
    simpl in H. rewrite (IH H). reflexivity.
Qed.

(** X2.  Splitting undoes joining: a non-empty list of comma-free fields,
    joined with commas and split again, comes back unchanged. *)
Theorem split_comma_of_join :
  forall fields : list string,
    fields <> [] ->
    (forall f, In f fields -> has_comma f = false) ->
    split_comma (String.concat ","%string fields) = fields.
Proof.
  induction fields as [|f rest IH]; intros Hne Hf; [contradiction |].
  destruct rest as [|g rest'].
  - simpl. apply split_comma_count. apply Hf. left. reflexivity.
  - change (String.concat ","%string (f :: g :: rest'))
      with (f ++ String ","%char (String.concat ","%string (g :: rest')))%string.
    rewrite split_comma_app by (apply Hf; left; reflexivity).
    rewrite IH; [reflexivity | discriminate |].
    intros h Hh. apply Hf. right. exact Hh.
Qed.

Lemma split_comma_of_join_example :
  split_comma (String.concat ","%string ["resize"; ""; "prod"; "30"]%string)
  = ["resize"; ""; "prod"; "30"]%string.
Proof.
  apply split_comma_of_join; [discriminate |].
  intros f Hf. simpl in Hf.
  repeat (destruct Hf as [<- | Hf]; [reflexivity |]). contradiction.
Defined.

(* ================================================================== *)
(** * The repair branch *)
(* ================================================================== *)

Lemma max_len_split_positive (temp0 : list cell) :
  temp0 <> [] -> (1 <= max_len (map split_cell temp0))%nat.
Proof.
  destruct temp0 as [|c rest]; [contradiction |]. intros _. simpl.
  assert (H : (1 <= length (split_cell c))%nat).
  { destruct c as [s|x|]; simpl; try lia.
    rewrite length_map. pose proof (split_comma_count s) as [Hc _]. lia. }
  lia.
Qed.

(** X3.  The table [str.split(",", expand=True)] returns is rectangular:
    when column 0 holds a string it has one row per element, every row is
    as wide as the longest list of fields, and that width is at least one;
    when column 0 holds no string the accessor raises. *)
Theorem str_split_expand_rectangular :
  forall temp0 : list cell,
    (existsb is_str temp0 = false ->
       str_split_expand temp0 = inl AttributeError)
    /\ (existsb is_str temp0 = true ->
        exists w rows,
          str_split_expand temp0 = inr (w, rows)
          /\ w = max_len (map split_cell temp0)
          /\ (1 <= w)%nat
          /\ length rows = length temp0
          /\ (forall row, In row rows -> length row = w)
          /\ (forall s, In (CStr s) temp0 -> (S (count_commas s) <= w)%nat)).
Proof.
  intros temp0. unfold str_split_expand. split; intros Hs; rewrite Hs;
    [reflexivity |].
  exists (max_len (map split_cell temp0)), (map (expand_row (max_len (map split_cell temp0))) temp0).
  split; [reflexivity |]. split; [reflexivity |].
  split.
  { apply max_len_split_positive. intros ->. discriminate Hs. }
  split; [apply length_map |].
  split.
  - intros row Hrow. apply in_map_iff in Hrow. destruct Hrow as [c [<- Hc]].
    apply length_expand_row. apply max_len_bound. apply in_map. exact Hc.
  - intros s Hin. pose proof (split_comma_count s) as [Hc _]. rewrite <- Hc.
    rewrite <- (length_map CStr).
    apply (max_len_bound (map split_cell temp0) (split_cell (CStr s))).
    apply in_map. exact Hin.
Qed.

(** X4.  A table that comes out of the guarded block never has exactly one
    column: through the repair branch it has the ten canonical columns and
    rows of ten cells, otherwise it is the first parse unchanged. *)
Theorem load_columns_invariant :
  forall (f : UploadedFile) (df : DataFrame),
    load f = inr df ->
    length (columns df) <> 1%nat
    /\ (repair_taken f = true ->
        columns df = canonical_columns
        /\ forall row, In row (data df) -> length row = 10%nat)
    /\ (repair_taken f = false -> read_csv f = inr df).
Proof.
  intros f df. unfold load, repair_taken.
  destruct (read_csv f) as [e|df0]; [discriminate |].
  destruct (Nat.eqb (length (columns df0)) 1) eqn:Hc.
  - destruct (read_csv_noheader_0 f) as [e|temp0]; [discriminate |].
    rewrite repair_result.
    destruct (existsb is_str temp0) eqn:Hs; [| discriminate].
    destruct (Nat.eqb (max_len (map split_cell temp0)) 10) eqn:Hw;
      [| discriminate].
    apply Nat.eqb_eq in Hw. rewrite Hw. intros H. injection H as <-. simpl.
    split; [discriminate |]. split; [| discriminate].
    intros _. split; [reflexivity |].
    intros row Hrow. apply in_map_iff in Hrow. destruct Hrow as [c [<- Hin]].
    apply length_expand_row. rewrite <- Hw. apply max_len_bound.
    apply in_map. exact Hin.
  - intros H. injection H as <-. apply Nat.eqb_neq in Hc.
    split; [exact Hc |]. split; [discriminate | reflexivity].
Qed.

Lemma load_columns_invariant_example :
  exists df, load quoted_lines_file = inr df
             /\ length (columns df) <> 1%nat
             /\ columns df = canonical_columns.
Proof.
  eexists. split; [reflexivity |].
  destruct (load_columns_invariant quoted_lines_file _ eq_refl) as [H1 [H2 _]].
  split; [exact H1 | apply H2; reflexivity].
Defined.

(* ================================================================== *)
(** * Coercion as a table transformation *)
(* ================================================================== *)

Lemma index_of_bound (name : string) (cols : list string) (i : nat) :
  index_of name cols = Some i -> (i < length cols)%nat.
Proof.
  revert i. induction cols as [|c cols IH]; intros i H; simpl in *;
    [discriminate H |].
  destruct (String.eqb c name).
  - injection H as <-. lia.
  - destruct (index_of name cols) as [j|]; [| discriminate H].
    injection H as <-. specialize (IH j eq_refl). lia.
Qed.

Lemma index_of_inj (a b : string) (cols : list string) (i : nat) :
  index_of a cols = Some i -> index_of b cols = Some i -> a = b.
Proof.
  revert i. induction cols as [|c cols IH]; intros i Ha Hb; simpl in *;
    [discriminate Ha |].
  destruct (String.eqb c a) eqn:Ea, (String.eqb c b) eqn:Eb.
  - apply String.eqb_eq in Ea, Eb. congruence.
  - injection Ha as <-. destruct (index_of b cols); discriminate Hb.
  - injection Hb as <-. destruct (index_of a cols); discriminate Ha.
  - destruct (index_of a cols) as [ja|]; [| discriminate Ha].
    destruct (index_of b cols) as [jb|]; [| discriminate Hb].
    injection Ha as <-. injection Hb as Hj. apply (IH ja); congruence.
Qed.

Lemma length_map_nth {A : Type} (f : A -> A) (l : list A) : forall i,
  length (map_nth f i l) = length l.
Proof.
  induction l as [|x l IH]; intros [|i]; simpl; try reflexivity.
  rewrite IH. reflexivity.
Qed.

Lemma nth_map_nth_other {A : Type} (f : A -> A) (d : A) (l : list A) :
  forall i j, i <> j -> nth j (map_nth f i l) d = nth j l d.
Proof.
  induction l as [|x l IH]; intros [|i] [|j] H; simpl; try reflexivity.
  - contradiction.
  - apply IH. congruence.
Qed.

Lemma nth_map_nth_same {A : Type} (f : A -> A) (d : A) (l : list A) :
  forall i, (i < length l)%nat -> nth i (map_nth f i l) d = f (nth i l d).
Proof.
  induction l as [|x l IH]; intros [|i] H; simpl in *; try lia.
  - reflexivity.
  - apply IH. lia.
Qed.

Section CoercionFrame.

Variable str_to_float : string -> option float.

Lemma coerce_columns_first_absent (names : list string) : forall df,
  match first_absent names (columns df) with
  | Some n => coerce_columns str_to_float names df = inl (KeyError n)
  | None => exists df', coerce_columns str_to_float names df = inr df'
  end.
Proof.
  induction names as [|m names IH]; intros df; simpl.
  - exists df. reflexivity.
  - unfold coerce_column at 1 2.
    destruct (index_of m (columns df)) as [i|] eqn:Hm; [| reflexivity].
    apply (IH (mkDataFrame (columns df)
                 (map (map_nth (to_numeric str_to_float) i) (data df)))).
Qed.

(** X6.  The coercion loop fails exactly when one of the eight numeric
    columns is absent, and the [KeyError] it raises names the first absent
    column in the order of the loop; the columns before it have been
    coerced by then, the ones after it are not looked at. *)
Theorem coerce_key_error :
  forall df : DataFrame,
    (forall n, first_absent numeric_columns (columns df) = Some n ->
               coerce str_to_float df = inl (KeyError n)
               /\ In n numeric_columns /\ has_column n df = false)
    /\ (first_absent numeric_columns (columns df) = None ->
        exists df', coerce str_to_float df = inr df')
    /\ (forall e, coerce str_to_float df = inl e ->
        exists n, e = KeyError n
                  /\ first_absent numeric_columns (columns df) = Some n).
Proof.
  intros df. unfold coerce.
  pose proof (coerce_columns_first_absent numeric_columns df) as H.
  destruct (first_absent numeric_columns (columns df)) as [m|] eqn:Hfa.
  - split; [| split].
    + intros n Hn. injection Hn as <-. split; [exact H |].
      clear H. revert Hfa. generalize numeric_columns as names.
      induction names as [|k names IH]; simpl; [discriminate |].
      unfold has_column.
      destruct (index_of k (columns df)) eqn:Hk.
      * intros Hfa. destruct (IH Hfa) as [H1 H2]. split; [right; exact H1 | exact H2].
      * intros Hfa. injection Hfa as <-. split; [left; reflexivity |].
        rewrite Hk. reflexivity.
    + discriminate.
    + intros e He. rewrite H in He. injection He as <-. exists m.
      split; reflexivity.
  - split; [| split].
    + discriminate.
    + intros _. exact H.
    + intros e He. destruct H as [df' H]. rewrite H in He. discriminate He.
Qed.

Lemma get_coerce_column_other (name other : string) (df df' : DataFrame) :
  name <> other ->
  coerce_column str_to_float other df = inr df' ->
  map (fun row => get (columns df') row name) (data df')
  = map (fun row => get (columns df) row name) (data df).
Proof.
  intros Hne. unfold coerce_column.
  destruct (index_of other (columns df)) as [i|] eqn:Hi; [| discriminate].
  intros H. injection H as <-. simpl. rewrite map_map. apply map_ext.
  intros row. unfold get.
  destruct (index_of name (columns df)) as [j|] eqn:Hj; [| reflexivity].
  apply nth_map_nth_other. intros ->.
  apply Hne. apply (index_of_inj name other (columns df) j Hj Hi).
Qed.

Lemma coerce_columns_other (name : string) (names : list string) :
  ~ In name names ->
  forall df df',
    coerce_columns str_to_float names df = inr df' ->
    map (fun row => get (columns df') row name) (data df')
    = map (fun row => get (columns df) row name) (data df).
Proof.
  induction names as [|m names IH]; intros Hn df df' H; simpl in H.
  - injection H as <-. reflexivity.
  - destruct (coerce_column str_to_float m df) as [e|df1] eqn:Hm;
      [discriminate H |].
    rewrite (IH (fun Hin => Hn (or_intror Hin)) df1 df' H).
    apply (get_coerce_column_other name m df df1); [| exact Hm].
    intros ->. apply Hn. left. reflexivity.
Qed.

Lemma coerce_columns_shape (names : list string) : forall df df',
  coerce_columns str_to_float names df = inr df' ->
  columns df' = columns df
  /\ map (@length cell) (data df') = map (@length cell) (data df).
Proof.
  induction names as [|m names IH]; intros df df' H; simpl in H.
  - injection H as <-. split; reflexivity.
  - destruct (coerce_column str_to_float m df) as [e|df1] eqn:Hm;
      [discriminate H |].
    destruct (IH df1 df' H) as [Hc Hl]. rewrite Hc, Hl.
    unfold coerce_column in Hm.
    destruct (index_of m (columns df)) as [i|]; [| discriminate Hm].
    injection Hm as <-. simpl. split; [reflexivity |].
    rewrite map_map. apply map_ext. intros row. apply length_map_nth.
Qed.

(** X7.  Coercion is confined to the eight numeric columns: when it
    succeeds the table keeps its column labels, its number of rows and the
    width of every row, and every column other than the eight, such as
    [FunctionName] and [Environment], is cell for cell what it was. *)
Theorem coerce_frame :
  forall df df' : DataFrame,
    coerce str_to_float df = inr df' ->
    columns df' = columns df
    /\ length (data df') = length (data df)
    /\ map (@length cell) (data df') = map (@length cell) (data df)
    /\ (forall name, ~ In name numeric_columns ->
          map (fun row => get (columns df') row name) (data df')
          = map (fun row => get (columns df) row name) (data df))
    /\ map FunctionName (records df') = map FunctionName (records df)
    /\ map Environment (records df') = map Environment (records df).
Proof.
  intros df df' H. unfold coerce in H.
  destruct (coerce_columns_shape numeric_columns df df' H) as [Hc Hl].
  assert (Hother : forall name, ~ In name numeric_columns ->
            map (fun row => get (columns df') row name) (data df')
            = map (fun row => get (columns df) row name) (data df)).
  { intros name Hn. apply (coerce_columns_other name numeric_columns Hn df df' H). }
  split; [exact Hc |].
  split.
  { rewrite <- (length_map (@length cell) (data df')), Hl. apply length_map. }
  split; [exact Hl |].
  split; [exact Hother |].
  unfold records. rewrite !map_map. simpl.
  split; apply Hother; simpl; intros Hin;
    repeat (destruct Hin as [Hin | Hin]; [discriminate Hin |]); exact Hin.
Qed.

Lemma rectangular_shape (df df' : DataFrame) :
  columns df' = columns df ->
  map (@length cell) (data df') = map (@length cell) (data df) ->
  rectangular df -> rectangular df'.
Proof.
  unfold rectangular. intros Hc Hl Hr row Hrow. rewrite Hc.
  assert (Hin : In (length row) (map (@length cell) (data df')))
    by (apply in_map; exact Hrow).
  rewrite Hl in Hin. apply in_map_iff in Hin. destruct Hin as [row0 [<- H0]].
  apply Hr. exact H0.
Qed.

(** X8.  After a successful coercion of a rectangular table no text and no
    [None] is left in the eight numeric columns: every cell there is a
    number (NaN when it could not be read), and the record of a row holds
    that number. *)
Theorem coerce_leaves_numbers :
  forall df df' : DataFrame,
    rectangular df ->
    coerce str_to_float df = inr df' ->
    rectangular df'
    /\ forall name row, In name numeric_columns -> In row (data df') ->
         exists x, get (columns df') row name = CNum x.
Proof.
  intros df df' Hrect H. unfold coerce in H.
  destruct (coerce_columns_shape numeric_columns df df' H) as [Hc Hl].
  pose proof (rectangular_shape df df' Hc Hl Hrect) as Hrect'.
  split; [exact Hrect' |].
  intros name row Hname Hrow.
  pose proof (coerce_columns_coerced str_to_float numeric_columns df df' H
                name Hname) as Hfix.
  unfold coerced_at, coerce_column in Hfix. unfold get.
  destruct (index_of name (columns df')) as [i|] eqn:Hi; [| discriminate Hfix].
  injection Hfix as Hrows.
  assert (Hrow_fix : map_nth (to_numeric str_to_float) i row = row).
  { assert (Hmap : forall rows : list (list cell),
              map (map_nth (to_numeric str_to_float) i) rows = rows ->
              forall r, In r rows -> map_nth (to_numeric str_to_float) i r = r).
    { induction rows as [|r0 rows IH]; intros Heq r Hr; [contradiction |].
      simpl in Heq. injection Heq as H0 Hrest.
      destruct Hr as [<- | Hr]; [exact H0 | apply IH; assumption]. }
    apply (Hmap (data df') (f_equal data Hrows) row Hrow). }
  assert (Hlt : (i < length row)%nat).
  { rewrite (Hrect' row Hrow). apply (index_of_bound name _ i Hi). }
  rewrite <- Hrow_fix.
  rewrite (nth_map_nth_same (to_numeric str_to_float) CNone row i Hlt).
  apply to_numeric_total.
Qed.

(* ================================================================== *)
(** * From the upload to the dashboard *)
(* ================================================================== *)

(** X5.  A repaired file never ends in a [KeyError]: once the repair branch
    has returned a table, coercion succeeds and the dashboard is shown, with
    one previewed row per line of the file. *)
Theorem repaired_file_reaches_dashboard :
  forall (f : UploadedFile) (df : DataFrame),
    repair_taken f = true ->
    load f = inr df ->
    exists df',
      coerce str_to_float df = inr df'
      /\ pipeline str_to_float f
         = Dashboard (records df') (fst (run script_order (records df')))
      /\ length (records df') = length (data df)
      /\ forall temp0, read_csv_noheader_0 f = inr temp0 ->
                       length (records df') = length temp0.
Proof.
  intros f df Hrep Hload.
  destruct (load_columns_invariant f df Hload) as [_ [Hcols _]].
  destruct (Hcols Hrep) as [Hcanon _].
  destruct (coerce_columns_ok str_to_float numeric_columns df) as [df' Hc].
  { intros n Hn. unfold has_column. rewrite Hcanon. simpl in Hn.
    repeat (destruct Hn as [<- | Hn]; [reflexivity |]). contradiction. }
  destruct (coerce_columns_shape numeric_columns df df' Hc) as [Hsame Hl].
  exists df'. split; [exact Hc |].
  assert (Hlen : length (records df') = length (data df)).
  { unfold records. rewrite length_map.
    rewrite <- (length_map (@length cell) (data df')), Hl. apply length_map. }
  split; [| split; [exact Hlen |]].
  - unfold pipeline. rewrite Hload. fold (coerce str_to_float df) in Hc.
    rewrite Hc. unfold has_column. rewrite Hsame, Hcanon. reflexivity.
  - intros temp0 Ht. rewrite Hlen. clear Hlen Hc Hl Hsame.
    unfold load, repair_taken in *.
    destruct (read_csv f) as [e|df0]; [discriminate Hrep |].
    rewrite Hrep, Ht, repair_result in Hload.
    destruct (existsb is_str temp0); [| discriminate Hload].
    destruct (Nat.eqb (max_len (map split_cell temp0)) 10);
      [| discriminate Hload].
    injection Hload as <-. simpl. apply length_map.
Qed.

End CoercionFrame.


Lemma coerce_key_error_example :
  coerce decimal_to_float (mkDataFrame ["a"; "b"]%string [[CNum 1; CNum 2]])
  = inl (KeyError "InvocationsPerMonth")
  /\ coerce decimal_to_float
       (mkDataFrame ["InvocationsPerMonth"; "MemoryMB"]%string
                    [[CStr "7"; CNum 128]])
     = inl (KeyError "AvgDurationMs").
Proof.
  split.
  - apply (coerce_key_error decimal_to_float
             (mkDataFrame ["a"; "b"]%string [[CNum 1; CNum 2]])).
    reflexivity.
  - apply (coerce_key_error decimal_to_float
             (mkDataFrame ["InvocationsPerMonth"; "MemoryMB"]%string
                          [[CStr "7"; CNum 128]])).
    reflexivity.
Defined.

Lemma well_formed_frame_rectangular : rectangular well_formed_frame.
Proof.
  intros row Hrow. simpl in Hrow.
  destruct Hrow as [<- | [<- | []]]; reflexivity.
Qed.

Lemma coerce_frame_example :
  exists df',
    coerce decimal_to_float well_formed_frame = inr df'
    /\ columns df' = canonical_columns
    /\ length (data df') = 2%nat
    /\ map FunctionName (records df') = [CStr "resize"; CStr "ingest"]
    /\ map Environment (records df') = [CStr "prod"; CStr "prod"].
Proof.
  eexists. split; [reflexivity |].
  destruct (coerce_frame decimal_to_float well_formed_frame _ eq_refl)
    as [Hc [Hn [_ [_ [Hf He]]]]].
  split; [exact Hc |]. split; [exact Hn |].
  split; [rewrite Hf | rewrite He]; reflexivity.
Defined.

Lemma coerce_leaves_numbers_example :
  exists df',
    coerce decimal_to_float well_formed_frame = inr df'
    /\ rectangular df'
    /\ forall name row, In name numeric_columns -> In row (data df') ->
         exists x, get (columns df') row name = CNum x.
Proof.
  eexists. split; [reflexivity |].
  apply (coerce_leaves_numbers decimal_to_float well_formed_frame _
           well_formed_frame_rectangular eq_refl).
Defined.

Lemma repaired_file_example :
  exists df df',
    load quoted_lines_file = inr df
    /\ coerce decimal_to_float df = inr df'
    /\ pipeline decimal_to_float quoted_lines_file
       = Dashboard (records df') (fst (run script_order (records df')))
    /\ length (records df') = 2%nat.
Proof.
  eexists.
  destruct (repaired_file_reaches_dashboard decimal_to_float
              quoted_lines_file _ eq_refl eq_refl) as [df' [Hc [Hp [Hn _]]]].
  exists df'. split; [reflexivity |]. split; [exact Hc |].
  split; [exact Hp | exact Hn].
Defined.


(* ================================================================== *)
(** * More on the views *)
(* ================================================================== *)

(** X10.  Whatever is missing, the ranked table has one row per row of the
    table: first the rows that have a cost, in descending order of
    [CostUSD], then the rows without a cost, in the order of the table. *)
Theorem ranked_rows_missing_last :
  forall df : list FunctionRecord,
    exists present missing,
      map ranked_row (df_sorted df) = present ++ missing
      /\ Permutation present
           (filter (fun r => negb (is_missing (CostUSD r))) df)
      /\ descending (map CostUSD present) = true
      /\ missing = filter (fun r => is_missing (CostUSD r)) df
      /\ length (df_sorted df) = length df.
Proof.
  intros df.
  exists (isort_desc CostUSD (filter (fun r => negb (is_nan (CostUSD r))) df)),
         (filter (fun r => is_nan (CostUSD r)) df).
  split; [apply df_sorted_rows |].
  split; [apply isort_desc_perm |].
  split.
  { apply isort_desc_sorted. intros r Hr. apply filter_In in Hr.
    destruct Hr as [_ Hr]. apply negb_true_iff in Hr. exact Hr. }
  split; [reflexivity |].
  rewrite <- (length_map ranked_row), df_sorted_rows.
  apply Permutation_length, sort_values_desc_perm.
Qed.

(** X11.  No row is both a right-sizing candidate and a containerization
    candidate: the two filters contradict each other on the duration.  This
    also holds for the containerization view as the script runs it, after
    the forecast. *)
Theorem right_sizing_containers_disjoint :
  forall (df : list FunctionRecord) (r : FunctionRecord),
    right_sizing_filter r && containers_filter r = false
    /\ ~ (In r (map sized_row (right_sizing df)) /\ In r (containers df))
    /\ ~ (In r (map sized_row (right_sizing df))
          /\ In (set_ForecastedCost r (forecasted_cost r))
                (containers (forecast df))).
Proof.
  intros df r.
  assert (Hex : right_sizing_filter r && containers_filter r = false).
  { unfold right_sizing_filter, containers_filter.
    destruct (AvgDurationMs r <? 600) eqn:H1; [| reflexivity].
    destruct (3000 <? AvgDurationMs r) eqn:H2;
      [| destruct (1024 <? MemoryMB r); reflexivity].
    pose proof (F64More.ltb_trans _ _ _ H2 H1) as H. discriminate H. }
  split; [exact Hex |].
  split.
  - intros [H1 H2]. rewrite right_sizing_rows in H1.
    apply filter_In in H1. unfold containers in H2. apply filter_In in H2.
    destruct H1 as [_ H1], H2 as [_ H2]. rewrite H1, H2 in Hex. discriminate Hex.
  - intros [H1 H2]. rewrite right_sizing_rows in H1.
    apply filter_In in H1. unfold containers in H2. apply filter_In in H2.
    destruct H1 as [_ H1], H2 as [_ H2].
    change (containers_filter (set_ForecastedCost r (forecasted_cost r)))
      with (containers_filter r) in H2.
    rewrite H1, H2 in Hex. discriminate Hex.
Qed.

(** X12.  A function with provisioned concurrency and no cold-start rate on
    record is told to keep it: the comparison with a missing rate is false
    and the [else] branch is taken.  "Reduce" is only ever said of a rate
    that is present. *)
Theorem pc_missing_rate_keeps :
  forall (df : list FunctionRecord) (a : Advised),
    In a (pc df) ->
    (is_missing (ColdStartRate (advised_row a)) = true ->
       Recommendation a = KeepPC)
    /\ (Recommendation a = ReduceRemovePC ->
        is_missing (ColdStartRate (advised_row a)) = false
        /\ (ColdStartRate (advised_row a) <? 10) = true).
Proof.
  intros df a Ha. unfold pc in Ha. apply in_map_iff in Ha.
  destruct Ha as [r [<- _]]. simpl. unfold recommend, is_missing. split.
  - intros H. rewrite (F64.ltb_nan_l _ _ H). reflexivity.
  - destruct (ColdStartRate r <? 10) eqn:E; [| discriminate].
    intros _. split; [| reflexivity]. apply (F64.ltb_not_nan _ _ E).
Qed.

Lemma pc_missing_rate_example :
  In (mkAdvised row_unknown_rate KeepPC) (pc [row_unknown_rate; row_thumb])
  /\ Recommendation (mkAdvised row_unknown_rate KeepPC) = KeepPC.
Proof.
  assert (H : In (mkAdvised row_unknown_rate KeepPC)
                 (pc [row_unknown_rate; row_thumb])) by (left; reflexivity).
  split; [exact H |].
  apply (pc_missing_rate_keeps _ _ H). reflexivity.
Defined.

(** X13.  In the right-sizing view a row without a cost has no savings
    estimate either (it is missing, not zero), and a cost that is not
    negative never gives a negative estimate. *)
Theorem estimated_savings_sign :
  forall (df : list FunctionRecord) (s : Sized),
    In s (right_sizing df) ->
    (is_missing (CostUSD (sized_row s)) = true ->
       is_missing (EstimatedSavings s) = true)
    /\ ((0 <=? CostUSD (sized_row s)) = true ->
        (0 <=? EstimatedSavings s) = true).
Proof.
  intros df s Hs. unfold right_sizing in Hs. apply in_map_iff in Hs.
  destruct Hs as [r [<- _]]. simpl. unfold is_missing. split.
  - apply F64.mul_nan_l.
  - intros H. apply F64.mul_nonneg; [exact H | reflexivity | reflexivity].
Qed.

Lemma estimated_savings_example :
  map EstimatedSavings (right_sizing [row_unbilled; row_thumb]) = [nan; 30]
  /\ is_missing (EstimatedSavings (mkSized row_unbilled nan)) = true
  /\ (0 <=? EstimatedSavings (mkSized row_thumb 30)) = true.
Proof.
  split; [reflexivity |].
  split.
  - apply (estimated_savings_sign [row_unbilled; row_thumb]
             (mkSized row_unbilled nan)); [left; reflexivity | reflexivity].
  - apply (estimated_savings_sign [row_unbilled; row_thumb]
             (mkSized row_thumb 30)); [right; left; reflexivity | reflexivity].
Defined.

(** X14.  A forecast needs all four of its inputs: when
    [InvocationsPerMonth], [AvgDurationMs], [MemoryMB] or [DataTransferGB]
    is missing, the forecast of the row is missing, and the row stays in
    the table with that missing forecast. *)
Theorem forecast_missing_input :
  forall (df : list FunctionRecord) (r : FunctionRecord),
    is_missing (InvocationsPerMonth r) = true
    \/ is_missing (AvgDurationMs r) = true
    \/ is_missing (MemoryMB r) = true
    \/ is_missing (DataTransferGB r) = true ->
    forecasted_cost r = nan
    /\ (In r df -> In (set_ForecastedCost r nan) (forecast df)).
Proof.
  intros df r H. unfold is_missing in H.
  assert (Hnan : forecasted_cost r = nan).
  { apply F64.is_nan_eq. unfold forecasted_cost.
    destruct H as [H | [H | [H | H]]].
    - apply F64More.add_nan_l. do 3 apply F64.mul_nan_l. exact H.
    - apply F64More.add_nan_l. do 2 apply F64.mul_nan_l.
      apply F64More.mul_nan_r. exact H.
    - apply F64More.add_nan_l. apply F64.mul_nan_l.
      apply F64More.mul_nan_r. exact H.
    - apply F64More.add_nan_r. apply F64.mul_nan_l. exact H. }
  split; [exact Hnan |].
  intros Hin. unfold forecast. apply in_map_iff. exists r.
  split; [rewrite Hnan; reflexivity | exact Hin].
Qed.

Lemma forecast_missing_input_example :
  forecasted_cost row_gap = nan
  /\ In (set_ForecastedCost row_gap nan) (forecast mixed_rows).
Proof.
  destruct (forecast_missing_input mixed_rows row_gap) as [H1 H2];
    [left; reflexivity |].
  split; [exact H1 | apply H2; do 3 right; left; reflexivity].
Defined.

Lemma filter_forecast (p : FunctionRecord -> bool) (df : list FunctionRecord) :
  (forall r x, p (set_ForecastedCost r x) = p r) ->
  filter p (forecast df) = forecast (filter p df).
Proof.
  intros Hp. unfold forecast. induction df as [|r df IH]; [reflexivity |].
  simpl. rewrite Hp. destruct (p r); simpl; rewrite IH; reflexivity.
Qed.

(** X15.  In script order the containerization view runs on the table the
    forecast has written to.  It selects the rows it would have selected
    before, each with its forecast attached: filtering the forecast table
    is forecasting the filtered table.  Assigning the forecast twice
    changes nothing, and the table the script ends with is the forecast
    table. *)
Theorem containers_after_forecast :
  forall df : list FunctionRecord,
    containers (forecast df) = forecast (containers df)
    /\ forecast (forecast df) = forecast df
    /\ snd (run script_order df) = forecast df
    /\ In (Containerization, OutContainers (forecast (containers df)))
          (fst (run script_order df))
    /\ (forall r, In r (containers (forecast df)) ->
          exists r0, In r0 df /\ containers_filter r0 = true
                     /\ r = set_ForecastedCost r0 (forecasted_cost r0)).
Proof.
  intros df.
  assert (Hcf : containers (forecast df) = forecast (containers df)).
  { unfold containers. apply filter_forecast. reflexivity. }
  split; [exact Hcf |].
  split.
  { unfold forecast. rewrite map_map. reflexivity. }
  split; [reflexivity |].
  split.
  { simpl. do 5 right. left. rewrite Hcf. reflexivity. }
  intros r Hr. rewrite Hcf in Hr. unfold forecast in Hr.
  apply in_map_iff in Hr. destruct Hr as [r0 [<- Hr0]].
  unfold containers in Hr0. apply filter_In in Hr0.
  exists r0. split; [apply Hr0 |]. split; [apply Hr0 | reflexivity].
Qed.

Lemma sum_zero_or_missing (xs : list float) :
  (forall x, In x xs -> (x =? 0) = true \/ is_nan x = true) ->
  (sum xs =? 0) = true.
Proof.
  intros H. unfold sum.
  assert (H' : forall y, In y (map nan_to_zero xs) -> (y =? 0) = true).
  { intros y Hy. apply in_map_iff in Hy. destruct Hy as [x [<- Hx]].
    unfold nan_to_zero. destruct (is_nan x) eqn:E; [reflexivity |].
    destruct (H x Hx) as [Hz | Hn]; [exact Hz | congruence]. }
  destruct (map nan_to_zero xs) as [|y ys]; simpl; [reflexivity |].
  apply fold_add_zero.
  - apply H'. left. reflexivity.
  - intros z Hz. apply H'. right. exact Hz.
Qed.

(** X16.  When no function has an invocation on record (every
    [InvocationsPerMonth] is zero or missing, or the table is empty) the
    invocation threshold is zero and the low-value view is empty, however
    the costs compare with their mean: nothing is below a threshold of
    zero. *)
Theorem low_value_empty_without_invocations :
  forall df : list FunctionRecord,
    (forall r, In r df ->
       (InvocationsPerMonth r =? 0) = true
       \/ is_missing (InvocationsPerMonth r) = true) ->
    (inv_threshold df =? 0) = true /\ low_value df = [].
Proof.
  intros df H.
  assert (Hthr : (inv_threshold df =? 0) = true).
  { unfold inv_threshold. apply F64More.mul_zero_finite; [| reflexivity ..].
    apply sum_zero_or_missing. intros x Hx. apply in_map_iff in Hx.
    destruct Hx as [r [<- Hr]]. apply H. exact Hr. }
  split; [exact Hthr |].
  unfold low_value. apply filter_none. intros r Hr.
  unfold low_value_filter.
  rewrite (F64More.ltb_zero_or_nan _ _ (H r Hr) Hthr). reflexivity.
Qed.

Lemma low_value_empty_example :
  (mean (map CostUSD rows_without_invocations) <? 100) = true
  /\ (inv_threshold rows_without_invocations =? 0) = true
  /\ low_value rows_without_invocations = [].
Proof.
  split; [reflexivity |].
  apply low_value_empty_without_invocations.
  intros r Hr. simpl in Hr.
  destruct Hr as [<- | [<- | [<- | []]]];
    [left; reflexivity | right; reflexivity | left; reflexivity].
Defined.


